(** * enviewgo: the ANSI SGR parser of [parse.go]

    A shallow embedding of [parse.go] (package [main] of stesla/enviewgo):
    the escape-sequence state machine ([parser.parse], [parsePlain],
    [parseESC], [parseCSI]), the colour tables and [color8bit], the run
    type [text] with its HTML renderer [toHTML], and the two entry points
    [parse] and [parseHTML].

    Go values are modelled as follows.
    - A Go [string] is a sequence of bytes: Rocq's [string] (a list of
      8-bit [ascii]).  A [strings.Builder] is the string written so far.
    - A [rune] (int32) and an [int] (64 bit) are [Z].
    - [for _, c := range in] decodes UTF-8 ([range_from], [decoderune]);
      [Builder.WriteRune] encodes it again ([appendRune]).
    - An [error] is a value of the type [error] below; a function that
      returns [(x, error)] returns a pair whose second component is an
      [option error] ([None] is Go's [nil]).
    - The receiver [p *parser] is passed in and handed back. *)

From Stdlib Require Import ZArith List String Ascii Bool Lia.
Import ListNotations.
Local Open Scope string_scope.
Local Open Scope Z_scope.

(** ** Go runtime and library functions used by [parse.go] *)

Definition rune := Z.

(** The value of a byte, [0 <= byteZ a < 256]. *)
Definition byteZ (a : ascii) : Z := Z.of_N (N_of_ascii a).

(** Go's conversion [byte(x)]: the low eight bits. *)
Definition byte (x : Z) : ascii := ascii_of_N (Z.to_N (x mod 256)).

(** Constants of [unicode/utf8] and [runtime/utf8.go]. *)
Definition runeError : rune := 0xFFFD.
Definition runeSelf : Z := 0x80.
Definition maxRune : rune := 0x10FFFF.
Definition surrogateMin : rune := 0xD800.
Definition surrogateMax : rune := 0xDFFF.
Definition tx : Z := 0x80.
Definition t2 : Z := 0xC0.
Definition t3 : Z := 0xE0.
Definition t4 : Z := 0xF0.
Definition t5 : Z := 0xF8.
Definition maskx : Z := 0x3F.
Definition mask2 : Z := 0x1F.
Definition mask3 : Z := 0x0F.
Definition mask4 : Z := 0x07.
Definition rune1Max : rune := 0x7F.
Definition rune2Max : rune := 0x7FF.
Definition rune3Max : rune := 0xFFFF.
Definition locb : Z := 0x80.
Definition hicb : Z := 0xBF.

(** [locb <= b && b <= hicb]: a continuation byte. *)
Definition iscont (b : Z) : bool := (locb <=? b) && (b <=? hicb).

(** [runtime.decoderune(s, 0)]: the rune at the start of [s], whose first
    byte is not ASCII, and the number of bytes it takes.  A sequence that is
    cut short, overlong, a surrogate or above [maxRune] gives
    [(runeError, 1)]. *)
Definition decoderune (s : string) : rune * nat :=
  match s with
  | EmptyString => (runeError, 1%nat)
  | String a0 r0 =>
    let s0 := byteZ a0 in
    if (t2 <=? s0) && (s0 <? t3) then
      match r0 with
      | String a1 _ =>
        let s1 := byteZ a1 in
        if iscont s1 then
          let r := Z.lor (Z.shiftl (Z.land s0 mask2) 6) (Z.land s1 maskx) in
          if rune1Max <? r then (r, 2%nat) else (runeError, 1%nat)
        else (runeError, 1%nat)
      | _ => (runeError, 1%nat)
      end
    else if (t3 <=? s0) && (s0 <? t4) then
      match r0 with
      | String a1 (String a2 _) =>
        let s1 := byteZ a1 in
        let s2 := byteZ a2 in
        if iscont s1 && iscont s2 then
          let r := Z.lor (Z.lor (Z.shiftl (Z.land s0 mask3) 12)
                                (Z.shiftl (Z.land s1 maskx) 6))
                         (Z.land s2 maskx) in
          if (rune2Max <? r) && negb ((surrogateMin <=? r) && (r <=? surrogateMax))
          then (r, 3%nat) else (runeError, 1%nat)
        else (runeError, 1%nat)
      | _ => (runeError, 1%nat)
      end
    else if (t4 <=? s0) && (s0 <? t5) then
      match r0 with
      | String a1 (String a2 (String a3 _)) =>
        let s1 := byteZ a1 in
        let s2 := byteZ a2 in
        let s3 := byteZ a3 in
        if iscont s1 && iscont s2 && iscont s3 then
          let r := Z.lor (Z.lor (Z.lor (Z.shiftl (Z.land s0 mask4) 18)
                                       (Z.shiftl (Z.land s1 maskx) 12))
                                (Z.shiftl (Z.land s2 maskx) 6))
                         (Z.land s3 maskx) in
          if (rune3Max <? r) && (r <=? maxRune)
          then (r, 4%nat) else (runeError, 1%nat)
        else (runeError, 1%nat)
      | _ => (runeError, 1%nat)
      end
    else (runeError, 1%nat)
  end.

(** The runes that [for _, c := range s] yields.  [skip] counts the bytes of
    [s] that still belong to the rune yielded last; the loop starts with
    [skip = 0].  A byte below [runeSelf] is its own rune; any other start
    byte goes through [decoderune]. *)
Fixpoint range_from (skip : nat) (s : string) : list rune :=
  match s with
  | EmptyString => []
  | String a rest =>
    match skip with
    | S k => range_from k rest
    | O =>
      if byteZ a <? runeSelf then byteZ a :: range_from 0 rest
      else let (r, w) := decoderune s in r :: range_from (Nat.pred w) rest
    end
  end.

Definition runes (s : string) : list rune := range_from 0 s.

(** [utf8.AppendRune(nil, r)], the bytes [Builder.WriteRune(r)] writes. *)
Definition appendRune (r : rune) : string :=
  let i := r mod 2 ^ 32 in (* uint32(r) *)
  if i <=? rune1Max then String (byte r) EmptyString
  else if i <=? rune2Max then
    String (byte (Z.lor t2 (byteZ (byte (Z.shiftr r 6)))))
   (String (byte (Z.lor tx (Z.land (byteZ (byte r)) maskx))) EmptyString)
  else
    let r3 := if (maxRune <? i) || ((surrogateMin <=? i) && (i <=? surrogateMax))
              then Some runeError
              else if i <=? rune3Max then Some r else None in
    match r3 with
    | Some r =>
      String (byte (Z.lor t3 (byteZ (byte (Z.shiftr r 12)))))
     (String (byte (Z.lor tx (Z.land (byteZ (byte (Z.shiftr r 6))) maskx)))
     (String (byte (Z.lor tx (Z.land (byteZ (byte r)) maskx))) EmptyString))
    | None =>
      String (byte (Z.lor t4 (byteZ (byte (Z.shiftr r 18)))))
     (String (byte (Z.lor tx (Z.land (byteZ (byte (Z.shiftr r 12))) maskx)))
     (String (byte (Z.lor tx (Z.land (byteZ (byte (Z.shiftr r 6))) maskx)))
     (String (byte (Z.lor tx (Z.land (byteZ (byte r)) maskx))) EmptyString)))
    end.

(** [b.WriteRune(c)] on a builder holding [b]. *)
Definition WriteRune (b : string) (c : rune) : string := (b ++ appendRune c)%string.

(** Go's [error] values that [parse.go] can return: its own [parseError]
    and the [*strconv.NumError] of [strconv.Atoi], which carries the
    offending text and [ErrSyntax] or [ErrRange]. *)
Inductive numErr : Type := ErrSyntax | ErrRange.
Inductive error : Type :=
| parseError
| NumError (num : string) (err : numErr).

Definition isdigit (ch : ascii) : bool := (48 <=? byteZ ch) && (byteZ ch <=? 57).

Definition maxUint64 : Z := 2 ^ 64 - 1.

(** The digit loop of [strconv.ParseUint(s, 10, 64)], [n] the value so far:
    a byte that is no decimal digit is a syntax error, a value above
    [maxUint64] a range error, whichever comes first from the left. *)
Fixpoint parseUintLoop (s : string) (n : Z) : numErr + Z :=
  match s with
  | EmptyString => inr n
  | String ch rest =>
    if isdigit ch then
      if maxUint64 / 10 + 1 <=? n then inl ErrRange
      else
        let n1 := n * 10 + (byteZ ch - 48) in
        if maxUint64 <? n1 then inl ErrRange else parseUintLoop rest n1
    else inl ErrSyntax
  end.

Definition ParseUint (s : string) : numErr + Z :=
  match s with
  | EmptyString => inl ErrSyntax
  | _ => parseUintLoop s 0
  end.

(** [strconv.Atoi(s)] with a 64-bit [int]: an optional sign, then decimal
    digits, the value within [-2^63 .. 2^63-1].  (Atoi's fast path for short
    texts computes the same.) *)
Definition Atoi (s : string) : Z + error :=
  match s with
  | EmptyString => inr (NumError s ErrSyntax)
  | String a rest =>
    let neg := Ascii.eqb a "-" in
    let digits := if Ascii.eqb a "+" || neg then rest else s in
    match ParseUint digits with
    | inl ErrSyntax => inr (NumError s ErrSyntax)
    | inl ErrRange => inr (NumError s ErrRange)
    | inr un =>
      if negb neg && (2 ^ 63 <=? un) then inr (NumError s ErrRange)
      else if neg && (2 ^ 63 <? un) then inr (NumError s ErrRange)
      else inl (if neg then - un else un)
    end
  end.

(** [strings.Split(s, ";")]: the pieces of [s] between the semicolons, one
    more piece than there are semicolons; [cur] is the piece being read. *)
Fixpoint splitFrom (cur : string) (s : string) : list string :=
  match s with
  | EmptyString => [cur]
  | String a rest =>
    if Ascii.eqb a ";" then cur :: splitFrom EmptyString rest
    else splitFrom (cur ++ String a EmptyString) rest
  end.

Definition Split (s : string) : list string := splitFrom EmptyString s.

(** [strings.Join(elems, sep)]. *)
Fixpoint Join (elems : list string) (sep : string) : string :=
  match elems with
  | [] => EmptyString
  | [x] => x
  | x :: rest => (x ++ sep ++ Join rest sep)%string
  end.

(** The double quote, byte 34. *)
Definition dquote : ascii := "034"%char.

(** [html.EscapeString]: a replacer over the five bytes [&], ['], [<], [>]
    and the double quote. *)
Definition escapeByte (a : ascii) : string :=
  if Ascii.eqb a "&" then "&amp;"
  else if Ascii.eqb a "'" then "&#39;"
  else if Ascii.eqb a "<" then "&lt;"
  else if Ascii.eqb a ">" then "&gt;"
  else if Ascii.eqb a dquote then "&#34;"
  else String a EmptyString.

Fixpoint EscapeString (s : string) : string :=
  match s with
  | EmptyString => EmptyString
  | String a rest => (escapeByte a ++ EscapeString rest)%string
  end.

(** ** Colour tables and [color8bit] *)

Definition LowColors : list string :=
  [ "#303030"; "#800000"; "#008000"; "#808000";
    "#000080"; "#800080"; "#008080"; "#c0c0c0" ].

Definition HighColors : list string :=
  [ "#808080"; "#ff0000"; "#00ff00"; "#ffff00";
    "#0000ff"; "#ff00ff"; "#00ffff"; "#ffffff" ].

Definition GrayscaleColors : list string :=
  [ "#080808"; "#121212"; "#1c1c1c"; "#262626"; "#303030"; "#3a3a3a";
    "#444444"; "#4e4e4e"; "#585858"; "#626262"; "#6c6c6c"; "#767676";
    "#808080"; "#8a8a8a"; "#9e9e9e"; "#9e9e9e"; "#a8a8a8"; "#b2b2b2";
    "#bcbcbc"; "#c6c6c6"; "#d0d0d0"; "#dadada"; "#e4e4e4"; "#eeeeee" ].

Definition CubeColors : list string := [ "00"; "5f"; "87"; "af"; "d7"; "ff" ].

(** [tbl[i]].  Go panics when [i] is out of range; every index expression of
    [parse.go] stands under a guard that keeps it in range (theorem
    [index_guarded]), so the value given here out of range is never used. *)
Definition index (tbl : list string) (i : Z) : string :=
  if i <? 0 then EmptyString else nth (Z.to_nat i) tbl EmptyString.

(** [color8bit]; Go's [/] on [int] is [Z.quot]. *)
Definition color8bit (c : Z) : string :=
  if (0 <=? c) && (c <=? 7) then index LowColors c
  else if (8 <=? c) && (c <=? 15) then index HighColors (c - 8)
  else if (16 <=? c) && (c <=? 231) then
    let r := Z.quot (c - 16) 36 in
    let g := Z.quot (c - 16 - 36 * r) 6 in
    let b := c - 16 - 36 * r - 6 * g in
    ("#" ++ index CubeColors r ++ index CubeColors g ++ index CubeColors b)%string
  else if (232 <=? c) && (c <=? 255) then index GrayscaleColors (c - 232)
  else EmptyString.

(** ** Runs and the HTML renderer *)

(** [type text struct]. *)
Record text : Type := mkText {
  text_text : string;
  text_bg : string;
  text_fg : string;
  text_bold : bool
}.

(** [(t *text) toHTML()]. *)
Definition toHTML (t : text) : string :=
  let escaped := EscapeString (text_text t) in
  let styles : list string := [] in
  let styles :=
    if (0 <? String.length (text_bg t))%nat
    then (styles ++ [("background-color: " ++ text_bg t)%string])%list else styles in
  let styles :=
    if (0 <? String.length (text_fg t))%nat
    then (styles ++ [("color: " ++ text_fg t)%string])%list else styles in
  let styles :=
    if text_bold t then (styles ++ ["font-weight: bold"])%list else styles in
  if (0 <? List.length styles)%nat then
    let style := Join styles "; " in
    ("<span style=" ++ String dquote style ++ String dquote ">" ++ escaped ++ "</span>")%string
  else escaped.

(** ** The parser *)

(** [type parseState func(c rune) (parseState, error)].  The only values the
    program stores are the three method values [p.parsePlain], [p.parseESC]
    and [p.parseCSI]; [callState] below invokes them. *)
Inductive parseState : Type := statePlain | stateESC | stateCSI.

(** [type parser struct]; [state] is [None] for Go's [nil], and a
    [strings.Builder] is what was written to it. *)
Record parser : Type := mkParser {
  p_state : option parseState;
  p_ts : list text;
  p_b : string;
  p_c : string;
  p_bg : string;
  p_fg : string;
  p_bold : bool
}.

(** [var p parser], also [&parser{}]. *)
Definition zeroParser : parser :=
  mkParser None [] EmptyString EmptyString EmptyString EmptyString false.

Definition set_state (p : parser) (v : option parseState) : parser :=
  mkParser v (p_ts p) (p_b p) (p_c p) (p_bg p) (p_fg p) (p_bold p).
Definition set_ts (p : parser) (v : list text) : parser :=
  mkParser (p_state p) v (p_b p) (p_c p) (p_bg p) (p_fg p) (p_bold p).
Definition set_b (p : parser) (v : string) : parser :=
  mkParser (p_state p) (p_ts p) v (p_c p) (p_bg p) (p_fg p) (p_bold p).
Definition set_c (p : parser) (v : string) : parser :=
  mkParser (p_state p) (p_ts p) (p_b p) v (p_bg p) (p_fg p) (p_bold p).
Definition set_bg (p : parser) (v : string) : parser :=
  mkParser (p_state p) (p_ts p) (p_b p) (p_c p) v (p_fg p) (p_bold p).
Definition set_fg (p : parser) (v : string) : parser :=
  mkParser (p_state p) (p_ts p) (p_b p) (p_c p) (p_bg p) v (p_bold p).
Definition set_bold (p : parser) (v : bool) : parser :=
  mkParser (p_state p) (p_ts p) (p_b p) (p_c p) (p_bg p) (p_fg p) v.

(** [(p *parser) append()]. *)
Definition append (p : parser) : parser :=
  let p := set_ts p (p_ts p ++
             [ {| text_text := p_b p; text_bg := p_bg p;
                  text_fg := p_fg p; text_bold := p_bold p |} ]) in
  set_b p EmptyString.

(** The first loop of [parseCSI]: [strconv.Atoi] on every piece, stopping at
    the first error. *)
Fixpoint atoiAll (strs : list string) : list Z + error :=
  match strs with
  | [] => inl []
  | str :: rest =>
    match Atoi str with
    | inr err => inr err
    | inl n =>
      match atoiAll rest with
      | inr err => inr err
      | inl ns => inl (n :: ns)
      end
    end
  end.

(** The second loop of [parseCSI], [for i := 0; i < len(codes); i++].  The
    argument is [codes[i:]], the entries from the loop index on: the body
    reads [codes[i]], and for 38 and 48 the test [i < len(codes)-2] says
    that two more entries follow; [i++] inside the body drops one entry. *)
Fixpoint sgrLoop (codes : list Z) (p : parser) : parser * option error :=
  match codes with
  | [] => (p, None)
  | c :: rest =>
    if 0 =? c then
      sgrLoop rest (set_bold (set_fg (set_bg p EmptyString) EmptyString) false)
    else if 1 =? c then sgrLoop rest (set_bold p true)
    else if (30 <=? c) && (c <=? 37) then
      sgrLoop rest (set_fg p (index LowColors (c - 30)))
    else if 38 =? c then
      match rest with
      | x :: ((y :: rest2) as rest1) =>
        if 5 =? x then sgrLoop rest2 (set_fg p (color8bit y))
        else sgrLoop rest1 p
      | _ => (p, Some parseError)
      end
    else if (40 <=? c) && (c <=? 47) then
      sgrLoop rest (set_bg p (index LowColors (c - 40)))
    else if 48 =? c then
      match rest with
      | x :: ((y :: rest2) as rest1) =>
        if 5 =? x then sgrLoop rest2 (set_bg p (color8bit y))
        else sgrLoop rest1 p
      | _ => (p, Some parseError)
      end
    else if (90 <=? c) && (c <=? 97) then
      sgrLoop rest (set_fg p (index HighColors (c - 90)))
    else if (100 <=? c) && (c <=? 107) then
      sgrLoop rest (set_bg p (index HighColors (c - 100)))
    else sgrLoop rest p
  end.

(** The three methods return [(next, nil)] or [(nil, err)]: a sum. *)

(** [(p *parser) parseCSI(c rune)]; ['m'] is 109. *)
Definition parseCSI (c : rune) (p : parser) : parser * (parseState + error) :=
  if c =? 109 then
    let strs := Split (p_c p) in
    let p := set_c p EmptyString in
    match atoiAll strs with
    | inr err => (p, inr err)
    | inl codes =>
      match sgrLoop codes p with
      | (p, Some err) => (p, inr err)
      | (p, None) => (p, inl statePlain)
      end
    end
  else (set_c p (WriteRune (p_c p) c), inl stateCSI).

(** [(p *parser) parseESC(c rune)]; ['['] is 91. *)
Definition parseESC (c : rune) (p : parser) : parser * (parseState + error) :=
  if c =? 91 then (p, inl stateCSI) else (p, inr parseError).

(** [(p *parser) parsePlain(c rune)]; ['\x1b'] is 27. *)
Definition parsePlain (c : rune) (p : parser) : parser * (parseState + error) :=
  if c =? 27 then
    let p := if (0 <? String.length (p_b p))%nat then append p else p in
    (p, inl stateESC)
  else (set_b p (WriteRune (p_b p) c), inl statePlain).

(** [p.state(c)] for the method value [st] held in [p.state]. *)
Definition callState (st : parseState) (c : rune) (p : parser)
  : parser * (parseState + error) :=
  match st with
  | statePlain => parsePlain c p
  | stateESC => parseESC c p
  | stateCSI => parseCSI c p
  end.

(** The loop of [(p *parser) parse]: [p.state, err = p.state(c)], leaving at
    the first error.  [st] is the method read from [p.state] at the top of
    the iteration; the field is written back on every turn ([nil] with an
    error). *)
Fixpoint parseLoop (rs : list rune) (st : parseState) (p : parser)
  : parser * option error :=
  match rs with
  | [] => (p, None)
  | c :: rest =>
    match callState st c p with
    | (p, inl next) => parseLoop rest next (set_state p (Some next))
    | (p, inr err) => (set_state p None, Some err)
    end
  end.

(** [(p *parser) parse(in string) (err error)]. *)
Definition parser_parse (input : string) (p : parser) : parser * option error :=
  let p := set_ts p [] in
  let p := set_state p (Some statePlain) in
  match parseLoop (runes input) statePlain p with
  | (p, Some err) => (p, Some err)
  | (p, None) => (append p, None)
  end.

(** [func parse(in string) ([]text, error)]. *)
Definition parse (input : string) : list text * option error :=
  if (String.length input =? 0)%nat then ([], None)
  else
    let (p, err) := parser_parse input zeroParser in
    (p_ts p, err).

(** [func parseHTML(bs []byte) (string, error)], [bs] read as [string(bs)]. *)
Definition parseHTML (bs : string) : string * option error :=
  match parser_parse bs zeroParser with
  | (_, Some err) => (EmptyString, Some err)
  | (p, None) => (Join (map toHTML (p_ts p)) EmptyString, None)
  end.

(** ** Notions the specification speaks of *)

(** The escape introducer, byte 27. *)
Definition esc : ascii := "027"%char.

(** The parser as [(p *parser) parse] starts its loop: a zero parser with
    [ts = []text{}] and [state = p.parsePlain]. *)
Definition startParser : parser :=
  set_state (set_ts zeroParser []) (Some statePlain).

(** The plain-text renderer: the texts of the runs, in order. *)
Fixpoint plainText (ts : list text) : string :=
  match ts with
  | [] => EmptyString
  | t :: rest => (text_text t ++ plainText rest)%string
  end.

(** The run that [append] emits in state [p]. *)
Definition runOf (p : parser) : text :=
  {| text_text := p_b p; text_bg := p_bg p; text_fg := p_fg p; text_bold := p_bold p |}.

(** The runs held once an escape introducer has been read in state [p]. *)
Definition flushed (p : parser) : list text :=
  if (0 <? String.length (p_b p))%nat then p_ts p ++ [runOf p] else p_ts p.

(** The input without its SGR escape sequences, in the words of the
    specification: every [ESC '[' ... 'm'] is removed, the dots being the
    bytes up to the first ['m'], and so is an escape sequence that the end
    of the input cuts short ([ESC] alone, or [ESC '['] with no ['m'] after
    it).  An [ESC] followed by another byte starts no SGR sequence and is
    kept (the parser rejects such an input). *)
Fixpoint stripSGR (s : string) : string :=
  match s with
  | EmptyString => EmptyString
  | String a rest =>
    if Ascii.eqb a esc then
      match rest with
      | EmptyString => EmptyString
      | String d rest1 =>
        if Ascii.eqb d "[" then
          (fix skip (l : string) : string :=
             match l with
             | EmptyString => EmptyString
             | String e l1 => if Ascii.eqb e "m" then stripSGR l1 else skip l1
             end) rest1
        else String a (stripSGR rest)
      end
    else String a (stripSGR rest)
  end.

(** What [stripSGR] leaves of a text that starts inside the parameters of
    an escape sequence. *)
Fixpoint stripParams (l : string) : string :=
  match l with
  | EmptyString => EmptyString
  | String e l1 => if Ascii.eqb e "m" then stripSGR l1 else stripParams l1
  end.

Definition between (lo hi b : Z) : bool := (lo <=? b) && (b <=? hi).

(** Well-formed UTF-8, by the table of well-formed byte sequences of the
    Unicode standard (table 3-7): no overlong form, no surrogate, nothing
    above U+10FFFF. *)
Fixpoint validUTF8 (s : string) : bool :=
  match s with
  | EmptyString => true
  | String a0 r0 =>
    let b0 := byteZ a0 in
    if b0 <=? 0x7F then validUTF8 r0
    else
      match r0 with
      | EmptyString => false
      | String a1 r1 =>
        let b1 := byteZ a1 in
        if between 0xC2 0xDF b0 then between 0x80 0xBF b1 && validUTF8 r1
        else
          match r1 with
          | EmptyString => false
          | String a2 r2 =>
            let b2 := byteZ a2 in
            if between 0xE0 0xEF b0 then
              (if b0 =? 0xE0 then between 0xA0 0xBF b1
               else if b0 =? 0xED then between 0x80 0x9F b1
               else between 0x80 0xBF b1)
              && between 0x80 0xBF b2 && validUTF8 r2
            else
              match r2 with
              | EmptyString => false
              | String a3 r3 =>
                let b3 := byteZ a3 in
                between 0xF0 0xF4 b0
                && (if b0 =? 0xF0 then between 0x90 0xBF b1
                    else if b0 =? 0xF4 then between 0x80 0x8F b1
                    else between 0x80 0xBF b1)
                && between 0x80 0xBF b2 && between 0x80 0xBF b3
                && validUTF8 r3
              end
          end
      end
  end.

(** No byte of [s] is the escape introducer. *)
Fixpoint noEsc (s : string) : bool :=
  match s with
  | EmptyString => true
  | String a rest => negb (Ascii.eqb a esc) && noEsc rest
  end.

(** The value of a hexadecimal digit (lower case, as in the tables). *)
Definition hexDigit (a : ascii) : Z :=
  let b := byteZ a in
  if between 48 57 b then b - 48
  else if between 97 102 b then b - 97 + 10
  else 0.

(** The brightness of a colour [#rrggbb]: the sum of its three channels. *)
Definition brightness (colour : string) : Z :=
  match colour with
  | String _ (String r1 (String r0 (String g1 (String g0 (String b1 (String b0 EmptyString)))))) =>
    (16 * hexDigit r1 + hexDigit r0) + (16 * hexDigit g1 + hexDigit g0)
    + (16 * hexDigit b1 + hexDigit b0)
  | _ => 0
  end.

Definition darker (c1 c2 : string) : Prop := brightness c1 < brightness c2.

(** The style declarations of a run in the words of the specification: the
    three declarations in their fixed order, each only if set. *)
Definition styleDecls (t : text) : list string :=
  (if String.eqb (text_bg t) EmptyString then [] else [("background-color: " ++ text_bg t)%string])
  ++ (if String.eqb (text_fg t) EmptyString then [] else [("color: " ++ text_fg t)%string])
  ++ (if text_bold t then ["font-weight: bold"] else []).

(** A run with the default style. *)
Definition defaultStyle (t : text) : bool :=
  String.eqb (text_bg t) EmptyString && String.eqb (text_fg t) EmptyString
  && negb (text_bold t).

(** The span of the specification around [body], with the style [style]. *)
Definition span (style body : string) : string :=
  ("<span style=" ++ String dquote style ++ String dquote ">" ++ body ++ "</span>")%string.

(** String concatenation of a list, in order. *)
Fixpoint concatAll (l : list string) : string :=
  match l with
  | [] => EmptyString
  | x :: rest => (x ++ concatAll rest)%string
  end.

(** [b] occurs in [s]. *)
Fixpoint occurs (b : ascii) (s : string) : bool :=
  match s with
  | EmptyString => false
  | String a rest => Ascii.eqb a b || occurs b rest
  end.


(** The five reserved bytes. *)
Definition reserved (a : ascii) : bool :=
  Ascii.eqb a "&" || Ascii.eqb a "'" || Ascii.eqb a "<" || Ascii.eqb a ">"
  || Ascii.eqb a dquote.

(** The method in [p.state] when the loop of [(p *parser) parse], started
    in [st], has read [rs] (the last one reached, if the loop left early). *)
Fixpoint stateAfter (rs : list rune) (st : parseState) (p : parser) : parseState :=
  match rs with
  | [] => st
  | c :: rest =>
    match callState st c p with
    | (p, inl next) => stateAfter rest next (set_state p (Some next))
    | (_, inr _) => st
    end
  end.

(** The style in force in state [p]. *)
Definition styleOf (p : parser) : string * string * bool :=
  (p_bg p, p_fg p, p_bold p).

(** A run of text [s] in the default style: no colour, not bold. *)
Definition plainRun (s : string) : text := mkText s EmptyString EmptyString false.

(** The code point that a well-formed sequence of two, three or four bytes
    encodes. *)
Definition rune2 (b0 b1 : Z) : rune := (b0 - 192) * 64 + (b1 - 128).
Definition rune3 (b0 b1 b2 : Z) : rune := (b0 - 224) * 4096 + (b1 - 128) * 64 + (b2 - 128).
Definition rune4 (b0 b1 b2 b3 : Z) : rune :=
  (b0 - 240) * 262144 + (b1 - 128) * 4096 + (b2 - 128) * 64 + (b3 - 128).

(** Every byte of [s] is 128 or more: no byte of [s] is an ASCII byte. *)
Fixpoint highBytes (s : string) : bool :=
  match s with
  | EmptyString => true
  | String a rest => (128 <=? byteZ a) && highBytes rest
  end.

(** The text the parser has read so far in state [p]: the runs and the text
    buffer. *)
Definition out (p : parser) : string := (plainText (p_ts p) ++ p_b p)%string.

(** What [stripSGR] leaves of the rest of the input when the text before it
    has brought the state machine to [st]. *)
Definition stripFrom (st : parseState) (s : string) : string :=
  match st with
  | statePlain => stripSGR s
  | stateESC =>
    match s with
    | EmptyString => EmptyString
    | String d rest => if Ascii.eqb d "[" then stripParams rest else String esc (stripSGR s)
    end
  | stateCSI => stripParams s
  end.

(** A byte that is no UTF-8, and the bytes of U+FFFD that the parser writes
    for it. *)
Definition invalidByte : string := String "255"%char EmptyString.
Definition replacement : string :=
  String "239"%char (String "191"%char (String "189"%char EmptyString)).

(** ** Notions of the further properties *)

(** The style [p] holds after SGR code 0. *)
Definition resetStyle (p : parser) : parser :=
  set_bold (set_fg (set_bg p EmptyString) EmptyString) false.

(** The SGR codes [sgrLoop] acts on. *)
Definition supported (c : Z) : bool :=
  (c =? 0) || (c =? 1) || ((30 <=? c) && (c <=? 38)) || ((40 <=? c) && (c <=? 48))
  || ((90 <=? c) && (c <=? 97)) || ((100 <=? c) && (c <=? 107)).
(** What one SGR code other than 38 and 48 does to the style. *)
Definition sgrStep (c : Z) (p : parser) : parser :=
  if 0 =? c then resetStyle p
  else if 1 =? c then set_bold p true
  else if (30 <=? c) && (c <=? 37) then set_fg p (index LowColors (c - 30))
  else if (40 <=? c) && (c <=? 47) then set_bg p (index LowColors (c - 40))
  else if (90 <=? c) && (c <=? 97) then set_fg p (index HighColors (c - 90))
  else if (100 <=? c) && (c <=? 107) then set_bg p (index HighColors (c - 100))
  else p.

(** A Unicode scalar value: a code point up to [maxRune] that is no
    surrogate. *)
Definition isScalar (r : rune) : bool :=
  (0 <=? r) && (r <=? maxRune) && negb ((surrogateMin <=? r) && (r <=? surrogateMax)).

(** [encodes r bs]: [bs] is the well-formed UTF-8 sequence of the code point
    [r], of one to four bytes. *)
Inductive encodes : rune -> string -> Prop :=
| encodes1 (a : ascii) :
    byteZ a < 128 -> encodes (byteZ a) (String a EmptyString)
| encodes2 (a0 a1 : ascii) :
    194 <= byteZ a0 <= 223 -> 128 <= byteZ a1 <= 191 ->
    encodes (rune2 (byteZ a0) (byteZ a1)) (String a0 (String a1 EmptyString))
| encodes3 (a0 a1 a2 : ascii) :
    224 <= byteZ a0 <= 239 -> 128 <= byteZ a1 <= 191 -> 128 <= byteZ a2 <= 191 ->
    (byteZ a0 = 224 -> 160 <= byteZ a1) -> (byteZ a0 = 237 -> byteZ a1 <= 159) ->
    encodes (rune3 (byteZ a0) (byteZ a1) (byteZ a2))
            (String a0 (String a1 (String a2 EmptyString)))
| encodes4 (a0 a1 a2 a3 : ascii) :
    240 <= byteZ a0 <= 244 ->
    128 <= byteZ a1 <= 191 -> 128 <= byteZ a2 <= 191 -> 128 <= byteZ a3 <= 191 ->
    (byteZ a0 = 240 -> 144 <= byteZ a1) -> (byteZ a0 = 244 -> byteZ a1 <= 143) ->
    encodes (rune4 (byteZ a0) (byteZ a1) (byteZ a2) (byteZ a3))
            (String a0 (String a1 (String a2 (String a3 EmptyString)))).

(** Every byte of [s] satisfies [P]. *)
Fixpoint allBytes (P : ascii -> bool) (s : string) : bool :=
  match s with
  | EmptyString => true
  | String a rest => P a && allBytes P rest
  end.

(** A lower-case hexadecimal digit. *)
Definition isHexByte (a : ascii) : bool :=
  between 48 57 (byteZ a) || between 97 102 (byteZ a).

(** A colour as the runs carry it: none, or [#] and six lower-case
    hexadecimal digits. *)
Definition isColour (s : string) : bool :=
  match s with
  | EmptyString => true
  | String h digits =>
    Ascii.eqb h "#" && (String.length digits =? 6)%nat && allBytes isHexByte digits
  end.

(** The colours of a run are colours in that sense. *)
Definition colouredRun (t : text) : bool := isColour (text_bg t) && isColour (text_fg t).

(** A printable ASCII byte. *)
Definition printable (a : ascii) : bool := (32 <=? byteZ a) && (byteZ a <? 127).

(** A printable ASCII byte that [html.EscapeString] leaves alone. *)
Definition plainByte (a : ascii) : bool := printable a && negb (reserved a).

(** The number of bytes [b] in [s]. *)
Fixpoint countByte (b : ascii) (s : string) : nat :=
  match s with
  | EmptyString => 0%nat
  | String a rest => ((if Ascii.eqb a b then 1 else 0) + countByte b rest)%nat
  end.

(** ** Breadcrumbs ([main.go]) *)

(** [type directory struct]. *)
Record directory : Type := mkDirectory {
  Path : string;
  Name : string
}.

(** [xs[i] = v].  Go panics when [i] is out of range; the loop below keeps
    its indices in range, so the value given here out of range is never
    used. *)
Fixpoint setAt (xs : list directory) (i : nat) (v : directory) : list directory :=
  match xs, i with
  | [], _ => []
  | _ :: rest, O => v :: rest
  | x :: rest, S k => x :: setAt rest k v
  end.

(** [xs[i], xs[opp] = xs[opp], xs[i]]: both operands are read, then both
    elements written. *)
Definition swap (xs : list directory) (i opp : nat) : list directory :=
  match nth_error xs opp, nth_error xs i with
  | Some a, Some b => setAt (setAt xs i a) opp b
  | _, _ => xs
  end.

(** The second loop of [breadcrumbs],
    [for i := len(xs)/2 - 1; i >= 0; i--]; [k] is [i + 1], so that the loop
    ends at [k = 0]. *)
Fixpoint reverseLoop (k : nat) (xs : list directory) : list directory :=
  match k with
  | O => xs
  | S i => reverseLoop i (swap xs i (List.length xs - 1 - i))
  end.

Definition reverse (xs : list directory) : list directory :=
  reverseLoop (List.length xs / 2) xs.

Section Breadcrumbs.
(** [path.Base] and [path.Dir] of Go's library. *)
Variable Base : string -> string.
Variable Dir : string -> string.

(** The first loop of [breadcrumbs], [for len(p) > 1]; [None] when [fuel]
    turns of the loop do not end it. *)
Fixpoint crumbLoop (fuel : nat) (p : string) (xs : list directory)
  : option (list directory) :=
  if (1 <? String.length p)%nat then
    match fuel with
    | O => None
    | S f => crumbLoop f (Dir p) (xs ++ [ {| Path := p; Name := Base p |} ])
    end
  else Some xs.

(** [func breadcrumbs(r *http.Request) []directory], on [r.URL.Path]. *)
Definition breadcrumbs (fuel : nat) (urlPath : string) : option (list directory) :=
  match crumbLoop fuel urlPath [] with
  | Some xs => Some (reverse xs)
  | None => None
  end.

(** [ancestors p ys]: [ys] lists [p], [Dir p], [Dir (Dir p)] and so on, as
    long as the path has more than one byte. *)
Inductive ancestors : string -> list directory -> Prop :=
| ancestors_end (p : string) :
    (String.length p <= 1)%nat -> ancestors p []
| ancestors_step (p : string) (ys : list directory) :
    (1 < String.length p)%nat -> ancestors (Dir p) ys ->
    ancestors p ({| Path := p; Name := Base p |} :: ys).
End Breadcrumbs.

(** Two functions for the examples: the text before the last slash of a
    path, where [/] stands for the empty text and [.] for a path without
    slash, and the text behind the last slash. *)
Fixpoint beforeLastSlash (s : string) : option string :=
  match s with
  | EmptyString => None
  | String a rest =>
    match beforeLastSlash rest with
    | Some d => Some (String a d)
    | None => if Ascii.eqb a "/" then Some EmptyString else None
    end
  end.

Definition parentOf (s : string) : string :=
  match beforeLastSlash s with
  | None => "."
  | Some EmptyString => "/"
  | Some d => d
  end.

Fixpoint afterLastSlash (s : string) : string :=
  match s with
  | EmptyString => EmptyString
  | String a rest =>
    match beforeLastSlash rest with
    | Some _ => afterLastSlash rest
    | None => if Ascii.eqb a "/" then rest else s
    end
  end.

(** ** Tactics *)

(** Linear arithmetic with division and remainder by constants. *)
Ltac dm := Z.div_mod_to_equations; lia.

(** Decides a comparison of integers that the hypotheses settle. *)
Ltac bsolve :=
  repeat match goal with
  | |- context [Z.leb ?a ?c] => destruct (Z.leb_spec a c); try lia
  | |- context [Z.ltb ?a ?c] => destruct (Z.ltb_spec a c); try lia
  end; try reflexivity.

(** Turns a boolean hypothesis on bytes into the inequalities it states. *)
Ltac bprop H :=
  unfold between in H;
  rewrite ?andb_true_iff, ?Z.leb_le, ?Z.ltb_lt, ?Z.eqb_eq in H.

(** * Properties *)

(** ** Colour tables *)


Lemma quot_nonneg (a b : Z) : 0 <= a -> 0 < b -> Z.quot a b = a / b.
Proof. intros. apply Z.quot_div_nonneg; lia. Qed.

(** The three cube coordinates that [color8bit] computes stay within
    [CubeColors]. *)
Lemma cube_coordinates (N : Z) :
  16 <= N <= 231 ->
  let r := (N - 16) / 36 in
  let g := (N - 16 - 36 * r) / 6 in
  let b := N - 16 - 36 * r - 6 * g in
  0 <= r <= 5 /\ 0 <= g <= 5 /\ 0 <= b <= 5.
Proof.
  intros H r g b. subst r g b.
  pose proof (Z.div_mod (N - 16) 36 ltac:(lia)) as H1.
  pose proof (Z.mod_pos_bound (N - 16) 36 ltac:(lia)) as H2.
  assert (E : N - 16 - 36 * ((N - 16) / 36) = (N - 16) mod 36) by lia.
  rewrite E.
  pose proof (Z.div_mod ((N - 16) mod 36) 6 ltac:(lia)) as H3.
  pose proof (Z.mod_pos_bound ((N - 16) mod 36) 6 ltac:(lia)) as H4.
  assert (0 <= (N - 16) / 36 <= 5).
  { split; [apply Z.div_pos; lia|].
    apply Z.lt_succ_r. apply Z.div_lt_upper_bound; lia. }
  assert (0 <= (N - 16) mod 36 / 6 <= 5).
  { split; [apply Z.div_pos; lia|].
    apply Z.lt_succ_r. apply Z.div_lt_upper_bound; lia. }
  lia.
Qed.

(** Every index expression of [color8bit] is within its table: the Go
    program cannot panic there. *)
Theorem index_guarded (c : Z) :
  (0 <= c <= 7 -> 0 <= c < Z.of_nat (List.length LowColors)) /\
  (8 <= c <= 15 -> 0 <= c - 8 < Z.of_nat (List.length HighColors)) /\
  (232 <= c <= 255 -> 0 <= c - 232 < Z.of_nat (List.length GrayscaleColors)) /\
  (16 <= c <= 231 ->
   let r := Z.quot (c - 16) 36 in
   let g := Z.quot (c - 16 - 36 * r) 6 in
   let b := c - 16 - 36 * r - 6 * g in
   0 <= r < Z.of_nat (List.length CubeColors) /\
   0 <= g < Z.of_nat (List.length CubeColors) /\
   0 <= b < Z.of_nat (List.length CubeColors)).
Proof.
  simpl List.length. split; [lia|]. split; [lia|]. split; [lia|].
  intros H. pose proof (cube_coordinates c H) as Hc. cbv zeta in *.
  rewrite (quot_nonneg (c - 16) 36) by lia.
  rewrite (quot_nonneg (c - 16 - 36 * ((c - 16) / 36)) 6) by lia.
  lia.
Qed.





Lemma color8bit_other (N : Z) : N < 0 \/ 255 < N -> color8bit N = EmptyString.
Proof.
  intros H. unfold color8bit.
  replace ((0 <=? N) && (N <=? 7)) with false.
  2:{ symmetry. apply andb_false_iff. destruct H; [left|right]; apply Z.leb_gt; lia. }
  replace ((8 <=? N) && (N <=? 15)) with false.
  2:{ symmetry. apply andb_false_iff. destruct H; [left|right]; apply Z.leb_gt; lia. }
  replace ((16 <=? N) && (N <=? 231)) with false.
  2:{ symmetry. apply andb_false_iff. destruct H; [left|right]; apply Z.leb_gt; lia. }
  replace ((232 <=? N) && (N <=? 255)) with false; [reflexivity|].
  symmetry. apply andb_false_iff. destruct H; [left|right]; apply Z.leb_gt; lia.
Qed.





(** A property checked on every integer of a range holds on the range. *)
Lemma forall_range (P : Z -> bool) (lo : Z) (n : nat) :
  forallb P (map (fun k => lo + Z.of_nat k) (seq 0 n)) = true ->
  forall N, lo <= N < lo + Z.of_nat n -> P N = true.
Proof.
  intros H N HN. rewrite forallb_forall in H. apply H.
  apply in_map_iff. exists (Z.to_nat (N - lo)). split; [lia|].
  apply in_seq. lia.
Qed.

(** Away from index 246 the grey ramp of [color8bit] does rise. *)
Lemma grayscale_rises_elsewhere (N : Z) :
  232 <= N < 255 -> N <> 246 -> darker (color8bit N) (color8bit (N + 1)).
Proof.
  intros HN Hne. unfold darker.
  pose (P := fun k => (k =? 246) || (brightness (color8bit k) <? brightness (color8bit (k + 1)))).
  assert (HP : P N = true).
  { apply (forall_range P 232 23); [vm_compute; reflexivity | lia]. }
  unfold P in HP. apply orb_true_iff in HP. destruct HP as [HP|HP].
  - apply Z.eqb_eq in HP. contradiction.
  - apply Z.ltb_lt. exact HP.
Qed.

(** C9.  The grey ramp is not strictly rising: [GrayscaleColors] holds
    ["#9e9e9e"] twice, at 14 and 15, so [color8bit] gives palette indices
    246 and 247 the same colour and 246 is not darker than 247.  (The
    entries rise by [0x0a] a step elsewhere; the step from 245 to 246 is
    [0x14].) *)
Theorem grayscale_not_strict :
  color8bit 246 = "#9e9e9e" /\
  color8bit 247 = "#9e9e9e" /\
  brightness (color8bit 246) = brightness (color8bit 247) /\
  (darker (color8bit 246) (color8bit 247) -> False) /\
  brightness (color8bit 245) + 3 * 20 = brightness (color8bit 246).
Proof.
  split; [reflexivity|]. split; [reflexivity|]. split; [reflexivity|].
  split; [|reflexivity].
  unfold darker. vm_compute. intros H. discriminate H.
Qed.

(** ** SGR commands *)


(** An SGR error inside [parseCSI] ends the whole parse with that error. *)
Lemma parseCSI_sgr_error (p : parser) (codes : list Z) (p1 : parser) (e : error) :
  atoiAll (Split (p_c p)) = inl codes ->
  sgrLoop codes (set_c p EmptyString) = (p1, Some e) ->
  parseCSI 109 p = (p1, inr e).
Proof.
  intros Ha Hs. unfold parseCSI. simpl. rewrite Ha, Hs. reflexivity.
Qed.


(** C10.  When the loop reaches 38 (or 48) as a command, at least two
    entries follow and the first of them is not 5, the command raises no
    error and changes nothing, and the loop goes on at the second entry
    behind it: one entry is consumed, the next is a command of its own. *)
Theorem sgr_extended_not_5 (c x y : Z) (rest : list Z) (p : parser)
    (Hc : c = 38 \/ c = 48) (Hx : x <> 5) :
  sgrLoop (c :: x :: y :: rest) p = sgrLoop (y :: rest) p.
Proof.
  assert (E : (5 =? x) = false) by (apply Z.eqb_neq; lia).
  destruct Hc; subst c.
  - change (sgrLoop (38 :: x :: y :: rest) p)
      with (if 5 =? x then sgrLoop rest (set_fg p (color8bit y))
            else sgrLoop (y :: rest) p).
    rewrite E. reflexivity.
  - change (sgrLoop (48 :: x :: y :: rest) p)
      with (if 5 =? x then sgrLoop rest (set_bg p (color8bit y))
            else sgrLoop (y :: rest) p).
    rewrite E. reflexivity.
Qed.

Lemma sgr_extended_not_5_witness :
  sgrLoop [38; 2; 31; 1] startParser = sgrLoop [31; 1] startParser /\
  sgrLoop [31; 1] startParser
  = (set_bold (set_fg startParser "#800000") true, None).
Proof.
  split.
  - apply (sgr_extended_not_5 38 2 31 [1] startParser (or_introl eq_refl)). lia.
  - reflexivity.
Defined.

(** ** The HTML renderer *)

Lemma append_empty_r (s : string) : (s ++ EmptyString)%string = s.
Proof. induction s as [|a s IH]; simpl; [reflexivity | rewrite IH; reflexivity]. Qed.

Lemma append_assoc (s1 s2 s3 : string) :
  ((s1 ++ s2) ++ s3)%string = (s1 ++ (s2 ++ s3))%string.
Proof. induction s1 as [|a s1 IH]; simpl; [reflexivity | rewrite IH; reflexivity]. Qed.

Lemma Join_empty_sep (l : list string) : Join l EmptyString = concatAll l.
Proof.
  induction l as [|x rest IH]; [reflexivity|].
  destruct rest as [|y rest].
  - simpl. rewrite append_empty_r. reflexivity.
  - change (Join (x :: y :: rest) EmptyString)
      with (x ++ EmptyString ++ Join (y :: rest) EmptyString)%string.
    rewrite IH. reflexivity.
Qed.

Lemma len_pos_eqb (s : string) :
  (0 <? String.length s)%nat = negb (String.eqb s EmptyString).
Proof. destruct s; reflexivity. Qed.

Lemma occurs_app (b : ascii) (s1 s2 : string) :
  occurs b (s1 ++ s2) = occurs b s1 || occurs b s2.
Proof.
  induction s1 as [|a s1 IH]; simpl; [reflexivity|].
  rewrite IH. apply orb_assoc.
Qed.

(** What a byte is escaped to holds none of [<], [>], ['] and the double
    quote. *)
Lemma escapeByte_clean (b a : ascii) :
  reserved b = true -> b <> "&"%char -> occurs b (escapeByte a) = false.
Proof.
  intros Hb Hamp. unfold escapeByte.
  destruct (Ascii.eqb a "&") eqn:E1; [|
  destruct (Ascii.eqb a "'") eqn:E2; [|
  destruct (Ascii.eqb a "<") eqn:E3; [|
  destruct (Ascii.eqb a ">") eqn:E4; [|
  destruct (Ascii.eqb a dquote) eqn:E5]]]].
  1-5: unfold reserved in Hb;
    repeat (apply orb_true_iff in Hb; destruct Hb as [Hb|Hb]);
    apply Ascii.eqb_eq in Hb; subst b; try reflexivity; contradiction.
  simpl. rewrite orb_false_r.
  destruct (Ascii.eqb a b) eqn:E; [|reflexivity].
  apply Ascii.eqb_eq in E. subst b. unfold reserved in Hb.
  rewrite E1, E2, E3, E4, E5 in Hb. discriminate Hb.
Qed.

Lemma EscapeString_clean (b : ascii) (s : string) :
  reserved b = true -> b <> "&"%char -> occurs b (EscapeString s) = false.
Proof.
  intros Hb Hamp. induction s as [|a s IH]; [reflexivity|].
  simpl. rewrite occurs_app, IH, escapeByte_clean by assumption. reflexivity.
Qed.

Lemma escapeByte_other (a : ascii) :
  reserved a = false -> escapeByte a = String a EmptyString.
Proof.
  unfold reserved, escapeByte. intros H.
  repeat (apply orb_false_iff in H; destruct H as [H ?]).
  repeat match goal with E : _ = false |- _ => rewrite E; clear E end.
  reflexivity.
Qed.

(** [toHTML] in the words of the specification. *)
Lemma toHTML_styleDecls (t : text) :
  toHTML t
  = if defaultStyle t then EscapeString (text_text t)
    else span (Join (styleDecls t) "; ") (EscapeString (text_text t)).
Proof.
  unfold toHTML, defaultStyle, styleDecls, span.
  rewrite !len_pos_eqb.
  destruct (String.eqb (text_bg t) EmptyString);
    destruct (String.eqb (text_fg t) EmptyString);
    destruct (text_bold t); reflexivity.
Qed.

(** What [parse] and [parseHTML] do on one input. *)
Lemma parse_parser_parse (input : string) :
  input <> EmptyString ->
  parse input = (p_ts (fst (parser_parse input zeroParser)),
                 snd (parser_parse input zeroParser)).
Proof.
  intros H. unfold parse. destruct input as [|a s]; [contradiction|].
  simpl String.length. simpl Nat.eqb. cbv iota.
  destruct (parser_parse (String a s) zeroParser). reflexivity.
Qed.

Lemma parseHTML_of_parse (bs : string) (ts : list text) :
  parse bs = (ts, None) -> parseHTML bs = (concatAll (map toHTML ts), None).
Proof.
  destruct bs as [|a s].
  - intros H. injection H as <-. reflexivity.
  - rewrite parse_parser_parse by discriminate. unfold parseHTML.
    destruct (parser_parse (String a s) zeroParser) as [p [e|]]; simpl;
      intros H; [discriminate H|].
    injection H as <-. rewrite Join_empty_sep. reflexivity.
Qed.

(** C8.  [toHTML] escapes the five reserved bytes of the run's text (each
    becomes its entity, every other byte stays, and none of [<], [>], ['] and
    the double quote is left in the escaped text); a run with a colour or
    bold is wrapped in a span whose style lists the declarations that are
    set in the order background-color, color, font-weight, joined by ["; "];
    a run with the default style is the escaped text alone; and [parseHTML]
    is the concatenation of [toHTML] over the runs of [parse], in order,
    with nothing around it. *)
Theorem html_renderer (t : text) (bs : string) :
  toHTML t
  = (if defaultStyle t then EscapeString (text_text t)
     else span (Join (styleDecls t) "; ") (EscapeString (text_text t))) /\
  (escapeByte "&" = "&amp;" /\ escapeByte "<" = "&lt;" /\ escapeByte ">" = "&gt;" /\
   escapeByte dquote = "&#34;" /\ escapeByte "'" = "&#39;") /\
  (forall a, reserved a = false -> escapeByte a = String a EmptyString) /\
  (occurs "<" (EscapeString (text_text t)) = false /\
   occurs ">" (EscapeString (text_text t)) = false /\
   occurs dquote (EscapeString (text_text t)) = false /\
   occurs "'" (EscapeString (text_text t)) = false) /\
  (forall ts, parse bs = (ts, None) ->
     parseHTML bs = (concatAll (map toHTML ts), None)).
Proof.
  split; [apply toHTML_styleDecls|].
  split; [repeat split|].
  split; [apply escapeByte_other|].
  split; [|apply parseHTML_of_parse].
  repeat split; apply EscapeString_clean; (reflexivity || discriminate).
Qed.

Lemma html_renderer_witness :
  toHTML (mkText "a<b" "#000080" "#008080" true)
  = span "background-color: #000080; color: #008080; font-weight: bold" "a&lt;b" /\
  parseHTML "x&y" = (concatAll (map toHTML [mkText "x&y" EmptyString EmptyString false]), None).
Proof.
  split.
  - apply (proj1 (html_renderer (mkText "a<b" "#000080" "#008080" true) "x&y")).
  - apply (proj2 (proj2 (proj2 (proj2
      (html_renderer (mkText "a<b" "#000080" "#008080" true) "x&y"))))).
    reflexivity.
Defined.

(** ** The end of the input *)

(** C5.  [parse] on the zero-length input returns no run and no error,
    while the parser itself, run on that input as [parseHTML] runs it,
    emits its final run, one run with the empty text; and on every other
    input that [parse] accepts the final run is there, so the result is
    never empty. *)
Theorem parse_zero_length :
  parse EmptyString = ([], None) /\
  parser_parse EmptyString zeroParser = (append startParser, None) /\
  p_ts (append startParser) = [mkText EmptyString EmptyString EmptyString false] /\
  (forall input ts, input <> EmptyString -> parse input = (ts, None) ->
     exists ts1 final, ts = (ts1 ++ [final])%list).
Proof.
  split; [reflexivity|]. split; [reflexivity|]. split; [reflexivity|].
  intros input ts Hne. rewrite parse_parser_parse by assumption.
  unfold parser_parse.
  destruct (parseLoop (runes input) statePlain
              (set_state (set_ts zeroParser []) (Some statePlain))) as [p [e|]];
    simpl; intros H; [discriminate H|].
  injection H as <-. exists (p_ts p), (runOf p). reflexivity.
Qed.

Lemma parse_zero_length_witness :
  parse "a" = ([plainRun "a"], None) /\
  exists ts1 final, [plainRun "a"] = (ts1 ++ [final])%list.
Proof.
  split; [reflexivity|].
  apply (proj2 (proj2 (proj2 parse_zero_length)) "a"); [discriminate | reflexivity].
Defined.

(** ** The loop of the state machine *)

(** The method the loop calls next is the one in [p.state]. *)
Lemma parseLoop_state (rs : list rune) :
  forall st p p1, p_state p = Some st -> parseLoop rs st p = (p1, None) ->
    p_state p1 = Some (stateAfter rs st p).
Proof.
  induction rs as [|c rest IH]; intros st p p1 Hst H; simpl in *.
  - injection H as <-. exact Hst.
  - destruct (callState st c p) as [p2 [next|e]]; [|discriminate H].
    apply IH; [reflexivity | exact H].
Qed.

Lemma parseLoop_app (rs1 rs2 : list rune) :
  forall st p p1, parseLoop rs1 st p = (p1, None) ->
    parseLoop (rs1 ++ rs2)%list st p = parseLoop rs2 (stateAfter rs1 st p) p1.
Proof.
  induction rs1 as [|c rest IH]; intros st p p1 H; simpl in *.
  - injection H as <-. reflexivity.
  - destruct (callState st c p) as [p2 [next|e]]; [|discriminate H].
    apply IH. exact H.
Qed.

Lemma parseLoop_app_error (rs1 rs2 : list rune) :
  forall st p p1 e, parseLoop rs1 st p = (p1, Some e) ->
    parseLoop (rs1 ++ rs2)%list st p = (p1, Some e).
Proof.
  induction rs1 as [|c rest IH]; intros st p p1 e H; simpl in *.
  - discriminate H.
  - destruct (callState st c p) as [p2 [next|e2]]; [apply IH; exact H | exact H].
Qed.

(** A successful run over [rs ++ [c]] is a successful run over [rs] and
    one more successful call. *)
Lemma parseLoop_snoc (rs : list rune) (c : rune) (st : parseState) (p p' : parser) :
  parseLoop (rs ++ [c])%list st p = (p', None) ->
  exists p1 p2 next,
    parseLoop rs st p = (p1, None) /\
    callState (stateAfter rs st p) c p1 = (p2, inl next) /\
    p' = set_state p2 (Some next).
Proof.
  intros H. destruct (parseLoop rs st p) as [p1 [e|]] eqn:E.
  - rewrite (parseLoop_app_error rs [c] st p p1 e E) in H. discriminate H.
  - rewrite (parseLoop_app rs [c] st p p1 E) in H. simpl in H.
    destruct (callState (stateAfter rs st p) c p1) as [p2 [next|e]] eqn:E2;
      [|discriminate H].
    injection H as <-. exists p1, p2, next. repeat split; assumption.
Qed.

(** A failed run stops at the call that fails: the runes behind it are
    never read. *)
Lemma parseLoop_error (rs : list rune) :
  forall st p p' e, parseLoop rs st p = (p', Some e) ->
    exists pre c post p1 p2,
      rs = (pre ++ c :: post)%list /\
      parseLoop pre st p = (p1, None) /\
      callState (stateAfter pre st p) c p1 = (p2, inr e) /\
      p' = set_state p2 None.
Proof.
  induction rs as [|c rest IH]; intros st p p' e H; simpl in H.
  - discriminate H.
  - destruct (callState st c p) as [p2 [next|e2]] eqn:E.
    + destruct (IH _ _ _ _ H) as (pre & c1 & post & p1 & p3 & -> & H1 & H2 & ->).
      exists (c :: pre), c1, post, p1, p3. simpl. rewrite E.
      repeat split; assumption.
    + injection H as <- <-. exists [], c, rest, p, p2. simpl.
      repeat split; assumption.
Qed.

(** The SGR loop touches the style only. *)
Lemma sgrLoop_frame (n : nat) :
  forall codes p p' r, (List.length codes <= n)%nat -> sgrLoop codes p = (p', r) ->
    p_state p' = p_state p /\ p_ts p' = p_ts p /\ p_b p' = p_b p /\ p_c p' = p_c p.
Proof.
  induction n as [|n IH]; intros codes p p' r Hlen H.
  - destruct codes; [|simpl in Hlen; lia]. injection H as <- <-. repeat split.
  - destruct codes as [|c rest]; [injection H as <- <-; repeat split|].
    simpl in Hlen. unfold sgrLoop in H; fold sgrLoop in H.
    repeat match type of H with
    | (if ?b then _ else _) = _ => destruct b
    | (match ?l with [] => _ | _ :: _ => _ end) = _ => destruct l; simpl in Hlen
    | (_, Some _) = (_, _) => injection H as <- <-; repeat split
    | sgrLoop ?l ?q = _ =>
        let F := fresh in
        assert (F : (List.length l <= n)%nat) by (simpl; lia);
        destruct (IH _ _ _ _ F H) as (? & ? & ? & ?); repeat split; try assumption
    end.
Qed.

(** An error of the SGR loop is [parseError], raised at a 38 or a 48 that
    fewer than two entries follow. *)
Lemma sgrLoop_error (n : nat) :
  forall codes p p' e, (List.length codes <= n)%nat -> sgrLoop codes p = (p', Some e) ->
    e = parseError /\
    exists pre c rest, codes = (pre ++ c :: rest)%list /\ (c = 38 \/ c = 48) /\
                       (List.length rest < 2)%nat.
Proof.
  induction n as [|n IH]; intros codes p p' e Hlen H.
  - destruct codes; [discriminate H | simpl in Hlen; lia].
  - destruct codes as [|c rest]; [discriminate H|].
    simpl in Hlen. unfold sgrLoop in H; fold sgrLoop in H.
    destruct (0 =? c) eqn:E0.
    { destruct (IH rest _ _ _ ltac:(lia) H) as (He & pre & c1 & r1 & -> & Hc & Hl).
      split; [exact He|]. exists (c :: pre), c1, r1. repeat split; assumption. }
    destruct (1 =? c) eqn:E1.
    { destruct (IH rest _ _ _ ltac:(lia) H) as (He & pre & c1 & r1 & -> & Hc & Hl).
      split; [exact He|]. exists (c :: pre), c1, r1. repeat split; assumption. }
    destruct ((30 <=? c) && (c <=? 37)) eqn:E30.
    { destruct (IH rest _ _ _ ltac:(lia) H) as (He & pre & c1 & r1 & -> & Hc & Hl).
      split; [exact He|]. exists (c :: pre), c1, r1. repeat split; assumption. }
    destruct (38 =? c) eqn:E38.
    { apply Z.eqb_eq in E38. subst c.
      destruct rest as [|x [|y rest2]].
      - injection H as <- <-. split; [reflexivity|].
        exists [], 38, []. repeat split; [left; reflexivity | simpl; lia].
      - injection H as <- <-. split; [reflexivity|].
        exists [], 38, [x]. repeat split; [left; reflexivity | simpl; lia].
      - simpl in Hlen. destruct (5 =? x).
        + destruct (IH rest2 _ _ _ ltac:(lia) H) as (He & pre & c1 & r1 & -> & Hc & Hl).
          split; [exact He|]. exists (38 :: x :: y :: pre), c1, r1.
          repeat split; assumption.
        + destruct (IH (y :: rest2) _ _ _ ltac:(simpl; lia) H)
            as (He & pre & c1 & r1 & Heq & Hc & Hl).
          split; [exact He|]. exists (38 :: x :: pre), c1, r1.
          simpl. rewrite <- Heq. repeat split; assumption. }
    destruct ((40 <=? c) && (c <=? 47)) eqn:E40.
    { destruct (IH rest _ _ _ ltac:(lia) H) as (He & pre & c1 & r1 & -> & Hc & Hl).
      split; [exact He|]. exists (c :: pre), c1, r1. repeat split; assumption. }
    destruct (48 =? c) eqn:E48.
    { apply Z.eqb_eq in E48. subst c.
      destruct rest as [|x [|y rest2]].
      - injection H as <- <-. split; [reflexivity|].
        exists [], 48, []. repeat split; [right; reflexivity | simpl; lia].
      - injection H as <- <-. split; [reflexivity|].
        exists [], 48, [x]. repeat split; [right; reflexivity | simpl; lia].
      - simpl in Hlen. destruct (5 =? x).
        + destruct (IH rest2 _ _ _ ltac:(lia) H) as (He & pre & c1 & r1 & -> & Hc & Hl).
          split; [exact He|]. exists (48 :: x :: y :: pre), c1, r1.
          repeat split; assumption.
        + destruct (IH (y :: rest2) _ _ _ ltac:(simpl; lia) H)
            as (He & pre & c1 & r1 & Heq & Hc & Hl).
          split; [exact He|]. exists (48 :: x :: pre), c1, r1.
          simpl. rewrite <- Heq. repeat split; assumption. }
    destruct ((90 <=? c) && (c <=? 97)) eqn:E90.
    { destruct (IH rest _ _ _ ltac:(lia) H) as (He & pre & c1 & r1 & -> & Hc & Hl).
      split; [exact He|]. exists (c :: pre), c1, r1. repeat split; assumption. }
    destruct ((100 <=? c) && (c <=? 107)) eqn:E100.
    { destruct (IH rest _ _ _ ltac:(lia) H) as (He & pre & c1 & r1 & -> & Hc & Hl).
      split; [exact He|]. exists (c :: pre), c1, r1. repeat split; assumption. }
    destruct (IH rest _ _ _ ltac:(lia) H) as (He & pre & c1 & r1 & -> & Hc & Hl).
    split; [exact He|]. exists (c :: pre), c1, r1. repeat split; assumption.
Qed.

(** An error of the conversion loop is the error of [strconv.Atoi] on one of
    the pieces. *)
Lemma atoiAll_error (strs : list string) (e : error) :
  atoiAll strs = inr e -> exists str, In str strs /\ Atoi str = inr e.
Proof.
  induction strs as [|str rest IH]; simpl; intros H; [discriminate H|].
  destruct (Atoi str) as [n|e1] eqn:E.
  - destruct (atoiAll rest) as [ns|e2]; [discriminate H|].
    injection H as ->. destruct (IH eq_refl) as (s & Hin & Hs).
    exists s. split; [right; exact Hin | exact Hs].
  - injection H as ->. exists str. split; [left; reflexivity | exact E].
Qed.

Lemma startParser_state : p_state startParser = Some statePlain.
Proof. reflexivity. Qed.

Lemma len_zero_empty (s : string) :
  (0 <? String.length s)%nat = false -> s = EmptyString.
Proof. destruct s; [reflexivity | discriminate]. Qed.

(** While an escape sequence is being read, the runs are those flushed when
    its introducer was read, the text buffer is empty and the style is the
    one in force before it. *)
Lemma unterminated_run (rs : list rune) :
  forall p, parseLoop rs statePlain startParser = (p, None) ->
    (p_state p = Some stateESC ->
     exists pre q,
       rs = (pre ++ [27])%list /\
       parseLoop pre statePlain startParser = (q, None) /\
       p_state q = Some statePlain /\
       p_ts p = flushed q /\ p_b p = EmptyString /\ styleOf p = styleOf q) /\
    (p_state p = Some stateCSI ->
     exists pre params q,
       rs = (pre ++ 27 :: 91 :: params)%list /\ ~ In 109 params /\
       parseLoop pre statePlain startParser = (q, None) /\
       p_state q = Some statePlain /\
       p_ts p = flushed q /\ p_b p = EmptyString /\ styleOf p = styleOf q).
Proof.
  induction rs as [|c rs IH] using rev_ind; intros p H.
  - injection H as <-. split; intros Hs; discriminate Hs.
  - destruct (parseLoop_snoc _ _ _ _ _ H) as (p1 & p2 & next & H1 & H2 & ->).
    pose proof (parseLoop_state _ _ _ _ startParser_state H1) as Hst.
    destruct (IH _ H1) as [IHesc IHcsi].
    destruct (stateAfter rs statePlain startParser); simpl in H2.
    + (* the call was parsePlain *)
      unfold parsePlain in H2. destruct (c =? 27) eqn:Ec.
      * apply Z.eqb_eq in Ec. subst c. injection H2 as <- <-.
        split; intros Hs; [|discriminate Hs].
        exists rs, p1. split; [reflexivity|]. split; [exact H1|].
        split; [exact Hst|]. unfold flushed.
        destruct (0 <? String.length (p_b p1))%nat eqn:Eb.
        -- repeat split.
        -- apply len_zero_empty in Eb. repeat split. exact Eb.
      * injection H2 as <- <-. split; intros Hs; discriminate Hs.
    + (* the call was parseESC *)
      unfold parseESC in H2. destruct (c =? 91) eqn:Ec; [|discriminate H2].
      apply Z.eqb_eq in Ec. subst c. injection H2 as <- <-.
      split; intros Hs; [discriminate Hs|].
      destruct (IHesc Hst) as (pre & q & -> & Hq & Hqs & Hts & Hb & Hsty).
      exists pre, [], q. rewrite <- app_assoc. simpl.
      repeat split; try assumption. intros [].
    + (* the call was parseCSI *)
      unfold parseCSI in H2. destruct (c =? 109) eqn:Ec.
      * destruct (atoiAll (Split (p_c p1))) as [codes|e]; [|discriminate H2].
        destruct (sgrLoop codes (set_c p1 EmptyString)) as [p3 [e|]];
          [discriminate H2|].
        injection H2 as <- <-. split; intros Hs; discriminate Hs.
      * injection H2 as <- <-. split; intros Hs; [discriminate Hs|].
        destruct (IHcsi Hst) as (pre & params & q & -> & Hm & Hq & Hqs & Hts & Hb & Hsty).
        exists pre, (params ++ [c])%list, q. rewrite <- app_assoc. simpl.
        repeat split; try assumption.
        intros Hin. apply in_app_or in Hin. destruct Hin as [Hin|[Hin|[]]].
        -- exact (Hm Hin).
        -- subst c. discriminate Ec.
Qed.

(** C2 (as the code has it).  When the input ends inside an escape sequence
    (the state machine is left in [parseESC] or [parseCSI]), [parse] returns
    no error, and its runs are the runs flushed when the introducer of that
    sequence was read, followed by one run with the empty text in the style
    then in force: the final [append] of [(p *parser) parse] emits a run in
    every state.  The bytes of the cut-off sequence are in no run. *)
Theorem unterminated_escape (input : string) (p : parser)
    (Hrun : parseLoop (runes input) statePlain startParser = (p, None))
    (Hmode : p_state p = Some stateESC \/ p_state p = Some stateCSI) :
  exists pre tail q,
    runes input = (pre ++ 27 :: tail)%list /\
    (tail = [] \/ exists params, tail = 91 :: params /\ ~ In 109 params) /\
    parseLoop pre statePlain startParser = (q, None) /\
    p_state q = Some statePlain /\
    parse input
    = ((flushed q ++ [mkText EmptyString (p_bg q) (p_fg q) (p_bold q)])%list, None).
Proof.
  destruct (unterminated_run _ _ Hrun) as [Hesc Hcsi].
  assert (Hne : input <> EmptyString).
  { intros ->. injection Hrun as <-. destruct Hmode as [Hm|Hm]; discriminate Hm. }
  assert (Hparse : parse input = ((p_ts p ++ [runOf p])%list, None)).
  { rewrite parse_parser_parse by assumption. unfold parser_parse.
    change (set_state (set_ts zeroParser []) (Some statePlain)) with startParser.
    rewrite Hrun. reflexivity. }
  destruct Hmode as [Hm|Hm].
  - destruct (Hesc Hm) as (pre & q & Hrs & Hq & Hqs & Hts & Hb & Hsty).
    exists pre, [], q. repeat split; try assumption; [left; reflexivity|].
    rewrite Hparse, Hts. unfold runOf. rewrite Hb.
    unfold styleOf in Hsty. injection Hsty as -> -> ->. reflexivity.
  - destruct (Hcsi Hm) as (pre & params & q & Hrs & Hnm & Hq & Hqs & Hts & Hb & Hsty).
    exists pre, (91 :: params), q. repeat split; try assumption.
    + right. exists params. split; [reflexivity | exact Hnm].
    + rewrite Hparse, Hts. unfold runOf. rewrite Hb.
      unfold styleOf in Hsty. injection Hsty as -> -> ->. reflexivity.
Qed.

Lemma unterminated_escape_witness :
  exists pre tail q,
    runes ("foo" ++ String esc "[3") = (pre ++ 27 :: tail)%list /\
    (tail = [] \/ exists params, tail = 91 :: params /\ ~ In 109 params) /\
    parseLoop pre statePlain startParser = (q, None) /\
    p_state q = Some statePlain /\
    parse ("foo" ++ String esc "[3")
    = ((flushed q ++ [mkText EmptyString (p_bg q) (p_fg q) (p_bold q)])%list, None).
Proof.
  apply (unterminated_escape ("foo" ++ String esc "[3")
           (fst (parseLoop (runes ("foo" ++ String esc "[3")) statePlain startParser))).
  - reflexivity.
  - right. reflexivity.
Defined.

(** C2 as stated fails: on ["foo" ESC "[3"] the input ends in [parseCSI],
    the runs flushed before the escape sequence are the one run ["foo"], and
    [parse] returns two runs, the second with the empty text. *)
Lemma unterminated_escape_extra_run :
  p_state (fst (parseLoop (runes ("foo" ++ String esc "[3")) statePlain startParser))
  = Some stateCSI /\
  p_ts (fst (parseLoop (runes ("foo" ++ String esc "[3")) statePlain startParser))
  = [plainRun "foo"] /\
  parse ("foo" ++ String esc "[3") = ([plainRun "foo"; plainRun EmptyString], None) /\
  fst (parse ("foo" ++ String esc "[3")) <> [plainRun "foo"].
Proof.
  split; [reflexivity|]. split; [reflexivity|]. split; [reflexivity|].
  intros H. discriminate H.
Qed.

(** ** Failure *)

(** A call that fails leaves the runs as they were. *)
Lemma callState_error_ts (st : parseState) (c : rune) (p p2 : parser) (e : error) :
  callState st c p = (p2, inr e) -> p_ts p2 = p_ts p.
Proof.
  destruct st; simpl.
  - unfold parsePlain. destruct (c =? 27); intros H; discriminate H.
  - unfold parseESC. destruct (c =? 91); intros H; [discriminate H|].
    injection H as <- _. reflexivity.
  - unfold parseCSI. destruct (c =? 109); [|intros H; discriminate H].
    destruct (atoiAll (Split (p_c p))) as [codes|e1].
    + destruct (sgrLoop codes (set_c p EmptyString)) as [p3 [e3|]] eqn:E;
        intros H; [|discriminate H].
      injection H as <- _.
      destruct (sgrLoop_frame _ _ _ _ _ (Nat.le_refl _) E) as (_ & Hts & _).
      exact Hts.
    + intros H. injection H as <- _. reflexivity.
Qed.

(** C3 (as the code has it).  When [parse] fails, the state machine has
    stopped at the first call that fails, either [parseESC] on a rune other
    than ['['] (with [parseError]) or [parseCSI] on ['m'] (with the error of
    [strconv.Atoi] on a piece of the parameters, or with [parseError] at a
    38 or 48 that fewer than two entries follow); the runes behind that one
    are not read; [parse] returns the error together with the runs flushed
    up to there, and [parseHTML] returns the error with the empty string. *)
Theorem parse_failure (input : string) (ts : list text) (e : error)
    (Hfail : parse input = (ts, Some e)) :
  parseHTML input = (EmptyString, Some e) /\
  exists pre c post q,
    runes input = (pre ++ c :: post)%list /\
    parseLoop pre statePlain startParser = (q, None) /\
    ts = p_ts q /\
    ((p_state q = Some stateESC /\ c <> 91 /\ e = parseError) \/
     (p_state q = Some stateCSI /\ c = 109 /\
      ((exists str, In str (Split (p_c q)) /\ Atoi str = inr e) \/
       (e = parseError /\
        exists codes cs k rest,
          atoiAll (Split (p_c q)) = inl codes /\
          codes = (cs ++ k :: rest)%list /\ (k = 38 \/ k = 48) /\
          (List.length rest < 2)%nat)))).
Proof.
  assert (Hne : input <> EmptyString).
  { intros ->. discriminate Hfail. }
  rewrite parse_parser_parse in Hfail by assumption.
  unfold parseHTML. unfold parser_parse in *.
  change (set_state (set_ts zeroParser []) (Some statePlain)) with startParser in *.
  destruct (parseLoop (runes input) statePlain startParser) as [p' [e'|]] eqn:E;
    simpl in Hfail; [|discriminate Hfail].
  injection Hfail as <- <-. split; [reflexivity|].
  destruct (parseLoop_error _ _ _ _ _ E) as (pre & c & post & p1 & p2 & Hrs & H1 & H2 & ->).
  pose proof (parseLoop_state _ _ _ _ startParser_state H1) as Hst.
  exists pre, c, post, p1. split; [exact Hrs|]. split; [exact H1|].
  split; [simpl; apply (callState_error_ts _ _ _ _ _ H2)|].
  destruct (stateAfter pre statePlain startParser); simpl in H2.
  - unfold parsePlain in H2. destruct (c =? 27); discriminate H2.
  - left. unfold parseESC in H2. destruct (c =? 91) eqn:Ec; [discriminate H2|].
    injection H2 as _ <-. apply Z.eqb_neq in Ec. repeat split; assumption.
  - right. unfold parseCSI in H2. destruct (c =? 109) eqn:Ec; [|discriminate H2].
    apply Z.eqb_eq in Ec. split; [exact Hst|]. split; [exact Ec|].
    destruct (atoiAll (Split (p_c p1))) as [codes|e1] eqn:Ea.
    + right.
      destruct (sgrLoop codes (set_c p1 EmptyString)) as [p3 [e3|]] eqn:Es;
        [|discriminate H2].
      injection H2 as _ <-.
      destruct (sgrLoop_error _ _ _ _ _ (Nat.le_refl _) Es)
        as (He & cs & k & rest & Hc & Hk & Hl).
      split; [exact He|]. exists codes, cs, k, rest. repeat split; assumption.
    + left. injection H2 as _ <-. apply atoiAll_error. exact Ea.
Qed.

Lemma parse_failure_witness :
  parseHTML ("foo" ++ String esc "X") = (EmptyString, Some parseError) /\
  exists pre c post q,
    runes ("foo" ++ String esc "X") = (pre ++ c :: post)%list /\
    parseLoop pre statePlain startParser = (q, None) /\
    [plainRun "foo"] = p_ts q /\
    ((p_state q = Some stateESC /\ c <> 91 /\ parseError = parseError) \/
     (p_state q = Some stateCSI /\ c = 109 /\
      ((exists str, In str (Split (p_c q)) /\ Atoi str = inr parseError) \/
       (parseError = parseError /\
        exists codes cs k rest,
          atoiAll (Split (p_c q)) = inl codes /\
          codes = (cs ++ k :: rest)%list /\ (k = 38 \/ k = 48) /\
          (List.length rest < 2)%nat)))).
Proof.
  apply (parse_failure ("foo" ++ String esc "X") [plainRun "foo"] parseError).
  reflexivity.
Defined.

(** C3 as stated fails: on ["foo" ESC "X"] [parse] returns [parseError]
    together with the run ["foo"], flushed when the [ESC] was read. *)
Lemma parse_failure_keeps_runs :
  parse ("foo" ++ String esc "X") = ([plainRun "foo"], Some parseError) /\
  fst (parse ("foo" ++ String esc "X")) <> [].
Proof.
  split; [reflexivity|]. intros H. discriminate H.
Qed.

(** ** UTF-8: what [range] reads and [WriteRune] writes *)

(** Bytes and their values. *)
Lemma byteZ_range (a : ascii) : 0 <= byteZ a < 256.
Proof.
  unfold byteZ. pose proof (N_ascii_bounded a) as H. lia.
Qed.

Lemma byte_byteZ (a : ascii) : byte (byteZ a) = a.
Proof.
  unfold byte. rewrite Z.mod_small by apply byteZ_range.
  unfold byteZ. rewrite N2Z.id. apply ascii_N_embedding.
Qed.

Lemma byteZ_byte (x : Z) : byteZ (byte x) = x mod 256.
Proof.
  unfold byte, byteZ.
  pose proof (Z.mod_pos_bound x 256 ltac:(lia)) as H.
  rewrite N_ascii_embedding by lia. apply Z2N.id. lia.
Qed.

Lemma land_63 (x : Z) : Z.land x 63 = x mod 64.
Proof. change 63 with (Z.ones 6). rewrite Z.land_ones by lia. reflexivity. Qed.
Lemma land_31 (x : Z) : Z.land x 31 = x mod 32.
Proof. change 31 with (Z.ones 5). rewrite Z.land_ones by lia. reflexivity. Qed.
Lemma land_15 (x : Z) : Z.land x 15 = x mod 16.
Proof. change 15 with (Z.ones 4). rewrite Z.land_ones by lia. reflexivity. Qed.
Lemma land_7 (x : Z) : Z.land x 7 = x mod 8.
Proof. change 7 with (Z.ones 3). rewrite Z.land_ones by lia. reflexivity. Qed.

(** Or-ing bits below [2^n] into a multiple of [2^n] adds them. *)
Lemma lor_add (h y n : Z) :
  0 <= n -> 0 <= y < 2 ^ n -> Z.lor (h * 2 ^ n) y = h * 2 ^ n + y.
Proof.
  intros Hn Hy.
  assert (E : Z.land (h * 2 ^ n) y = 0).
  { apply Z.bits_inj'. intros k Hk. rewrite Z.land_spec, Z.bits_0.
    destruct (Z.lt_ge_cases k n) as [Hlt|Hge].
    - rewrite Z.mul_pow2_bits_low by lia. reflexivity.
    - destruct (Z.eq_dec y 0) as [->|Hy0].
      + rewrite Z.bits_0. apply andb_false_r.
      + rewrite (Z.bits_above_log2 y k); [apply andb_false_r | lia |].
        assert (Z.log2 y < n) by (apply Z.log2_lt_pow2; lia). lia. }
  rewrite <- Z.lxor_lor by exact E. symmetry. apply Z.add_nocarry_lxor. exact E.
Qed.

Lemma lor_hi (h y n k : Z) :
  0 <= n -> 0 <= y < 2 ^ n -> h = k * 2 ^ n -> Z.lor h y = h + y.
Proof. intros Hn Hy ->. apply lor_add; assumption. Qed.

(** Two bytes. *)
Lemma decode2 (b0 b1 : Z) :
  192 <= b0 <= 223 -> 128 <= b1 <= 191 ->
  Z.lor (Z.shiftl (Z.land b0 mask2) 6) (Z.land b1 maskx) = (b0 - 192) * 64 + (b1 - 128).
Proof.
  intros H0 H1. unfold mask2, maskx. rewrite land_31, land_63.
  rewrite Z.shiftl_mul_pow2 by lia. change (2 ^ 6) with 64.
  replace (b0 mod 32) with (b0 - 192) by dm.
  replace (b1 mod 64) with (b1 - 128) by dm.
  apply (lor_hi _ _ 6 (b0 - 192)); [lia | change (2 ^ 6) with 64; lia | reflexivity].
Qed.

Lemma encode2 (x0 x1 : Z) :
  0 <= x0 < 32 -> 0 <= x1 < 64 ->
  let r := x0 * 64 + x1 in
  Z.lor t2 (Z.shiftr r 6 mod 256) = 192 + x0 /\
  Z.lor tx (Z.land (r mod 256) maskx) = 128 + x1.
Proof.
  intros H0 H1 r. subst r. unfold t2, tx, maskx. rewrite land_63.
  rewrite Z.shiftr_div_pow2 by lia. change (2 ^ 6) with 64.
  replace ((x0 * 64 + x1) / 64 mod 256) with x0 by dm.
  replace ((x0 * 64 + x1) mod 256 mod 64) with x1 by dm.
  split.
  - apply (lor_hi _ _ 6 3); [lia | change (2 ^ 6) with 64; lia | reflexivity].
  - apply (lor_hi _ _ 6 2); [lia | change (2 ^ 6) with 64; lia | reflexivity].
Qed.

(** Three bytes. *)
Lemma decode3 (b0 b1 b2 : Z) :
  224 <= b0 <= 239 -> 128 <= b1 <= 191 -> 128 <= b2 <= 191 ->
  Z.lor (Z.lor (Z.shiftl (Z.land b0 mask3) 12) (Z.shiftl (Z.land b1 maskx) 6))
        (Z.land b2 maskx)
  = (b0 - 224) * 4096 + (b1 - 128) * 64 + (b2 - 128).
Proof.
  intros H0 H1 H2. unfold mask3, maskx. rewrite land_15, !land_63.
  rewrite !Z.shiftl_mul_pow2 by lia. change (2 ^ 6) with 64. change (2 ^ 12) with 4096.
  replace (b0 mod 16) with (b0 - 224) by dm.
  replace (b1 mod 64) with (b1 - 128) by dm.
  replace (b2 mod 64) with (b2 - 128) by dm.
  rewrite (lor_hi ((b0 - 224) * 4096) ((b1 - 128) * 64) 12 (b0 - 224));
    [| lia | change (2 ^ 12) with 4096; lia | reflexivity].
  apply (lor_hi _ _ 6 ((b0 - 224) * 64 + (b1 - 128)));
    [lia | change (2 ^ 6) with 64; lia | change (2 ^ 6) with 64; lia].
Qed.

Lemma encode3 (x0 x1 x2 : Z) :
  0 <= x0 < 16 -> 0 <= x1 < 64 -> 0 <= x2 < 64 ->
  let r := x0 * 4096 + x1 * 64 + x2 in
  Z.lor t3 (Z.shiftr r 12 mod 256) = 224 + x0 /\
  Z.lor tx (Z.land (Z.shiftr r 6 mod 256) maskx) = 128 + x1 /\
  Z.lor tx (Z.land (r mod 256) maskx) = 128 + x2.
Proof.
  intros H0 H1 H2 r. subst r. unfold t3, tx, maskx. rewrite !land_63.
  rewrite !Z.shiftr_div_pow2 by lia. change (2 ^ 6) with 64. change (2 ^ 12) with 4096.
  replace ((x0 * 4096 + x1 * 64 + x2) / 4096 mod 256) with x0 by dm.
  replace ((x0 * 4096 + x1 * 64 + x2) / 64 mod 256 mod 64) with x1 by dm.
  replace ((x0 * 4096 + x1 * 64 + x2) mod 256 mod 64) with x2 by dm.
  split; [|split].
  - apply (lor_hi _ _ 4 14); [lia | change (2 ^ 4) with 16; lia | reflexivity].
  - apply (lor_hi _ _ 6 2); [lia | change (2 ^ 6) with 64; lia | reflexivity].
  - apply (lor_hi _ _ 6 2); [lia | change (2 ^ 6) with 64; lia | reflexivity].
Qed.

(** Four bytes. *)
Lemma decode4 (b0 b1 b2 b3 : Z) :
  240 <= b0 <= 247 -> 128 <= b1 <= 191 -> 128 <= b2 <= 191 -> 128 <= b3 <= 191 ->
  Z.lor (Z.lor (Z.lor (Z.shiftl (Z.land b0 mask4) 18) (Z.shiftl (Z.land b1 maskx) 12))
               (Z.shiftl (Z.land b2 maskx) 6))
        (Z.land b3 maskx)
  = (b0 - 240) * 262144 + (b1 - 128) * 4096 + (b2 - 128) * 64 + (b3 - 128).
Proof.
  intros H0 H1 H2 H3. unfold mask4, maskx. rewrite land_7, !land_63.
  rewrite !Z.shiftl_mul_pow2 by lia.
  change (2 ^ 6) with 64. change (2 ^ 12) with 4096. change (2 ^ 18) with 262144.
  replace (b0 mod 8) with (b0 - 240) by dm.
  replace (b1 mod 64) with (b1 - 128) by dm.
  replace (b2 mod 64) with (b2 - 128) by dm.
  replace (b3 mod 64) with (b3 - 128) by dm.
  rewrite (lor_hi ((b0 - 240) * 262144) ((b1 - 128) * 4096) 18 (b0 - 240));
    [| lia | change (2 ^ 18) with 262144; lia | reflexivity].
  rewrite (lor_hi ((b0 - 240) * 262144 + (b1 - 128) * 4096) ((b2 - 128) * 64) 12
             ((b0 - 240) * 64 + (b1 - 128)));
    [| lia | change (2 ^ 12) with 4096; lia | change (2 ^ 12) with 4096; lia].
  apply (lor_hi _ _ 6 ((b0 - 240) * 4096 + (b1 - 128) * 64 + (b2 - 128)));
    [lia | change (2 ^ 6) with 64; lia | change (2 ^ 6) with 64; lia].
Qed.

Lemma encode4 (x0 x1 x2 x3 : Z) :
  0 <= x0 < 8 -> 0 <= x1 < 64 -> 0 <= x2 < 64 -> 0 <= x3 < 64 ->
  let r := x0 * 262144 + x1 * 4096 + x2 * 64 + x3 in
  Z.lor t4 (Z.shiftr r 18 mod 256) = 240 + x0 /\
  Z.lor tx (Z.land (Z.shiftr r 12 mod 256) maskx) = 128 + x1 /\
  Z.lor tx (Z.land (Z.shiftr r 6 mod 256) maskx) = 128 + x2 /\
  Z.lor tx (Z.land (r mod 256) maskx) = 128 + x3.
Proof.
  intros H0 H1 H2 H3 r. subst r. unfold t4, tx, maskx. rewrite !land_63.
  rewrite !Z.shiftr_div_pow2 by lia.
  change (2 ^ 6) with 64. change (2 ^ 12) with 4096. change (2 ^ 18) with 262144.
  replace ((x0 * 262144 + x1 * 4096 + x2 * 64 + x3) / 262144 mod 256) with x0 by dm.
  replace ((x0 * 262144 + x1 * 4096 + x2 * 64 + x3) / 4096 mod 256 mod 64) with x1 by dm.
  replace ((x0 * 262144 + x1 * 4096 + x2 * 64 + x3) / 64 mod 256 mod 64) with x2 by dm.
  replace ((x0 * 262144 + x1 * 4096 + x2 * 64 + x3) mod 256 mod 64) with x3 by dm.
  split; [|split; [|split]].
  - apply (lor_hi _ _ 4 15); [lia | change (2 ^ 4) with 16; lia | reflexivity].
  - apply (lor_hi _ _ 6 2); [lia | change (2 ^ 6) with 64; lia | reflexivity].
  - apply (lor_hi _ _ 6 2); [lia | change (2 ^ 6) with 64; lia | reflexivity].
  - apply (lor_hi _ _ 6 2); [lia | change (2 ^ 6) with 64; lia | reflexivity].
Qed.

(** What [range] and [WriteRune] do on each well-formed sequence. *)
Lemma range_from_cons (a : ascii) (rest : string) :
  range_from 0 (String a rest)
  = if byteZ a <? runeSelf then byteZ a :: range_from 0 rest
    else let (r, w) := decoderune (String a rest) in r :: range_from (Nat.pred w) rest.
Proof. reflexivity. Qed.

Lemma runes_ascii (a : ascii) (rest : string) :
  byteZ a < 128 -> runes (String a rest) = byteZ a :: runes rest.
Proof.
  intros H. unfold runes. rewrite range_from_cons.
  assert (E : (byteZ a <? runeSelf) = true) by (unfold runeSelf; bsolve).
  rewrite E. reflexivity.
Qed.

Lemma appendRune_ascii (a : ascii) :
  byteZ a < 128 -> appendRune (byteZ a) = String a EmptyString.
Proof.
  intros H. pose proof (byteZ_range a). unfold appendRune.
  rewrite (Z.mod_small (byteZ a)) by lia.
  assert (E : (byteZ a <=? rune1Max) = true) by (unfold rune1Max; bsolve).
  rewrite E, byte_byteZ. reflexivity.
Qed.

Lemma runes_multi (a : ascii) (rest : string) (r : rune) (w : nat) :
  128 <= byteZ a -> decoderune (String a rest) = (r, w) ->
  runes (String a rest) = r :: range_from (Nat.pred w) rest.
Proof.
  intros H E. unfold runes. rewrite range_from_cons.
  assert (E1 : (byteZ a <? runeSelf) = false) by (unfold runeSelf; bsolve).
  rewrite E1, E. reflexivity.
Qed.

Lemma decoderune_2 (a0 a1 : ascii) (rest : string) :
  194 <= byteZ a0 <= 223 -> 128 <= byteZ a1 <= 191 ->
  decoderune (String a0 (String a1 rest)) = (rune2 (byteZ a0) (byteZ a1), 2%nat).
Proof.
  intros H0 H1. unfold decoderune. cbv zeta.
  assert (E1 : ((t2 <=? byteZ a0) && (byteZ a0 <? t3)) = true)
    by (unfold t2, t3; bsolve).
  assert (E2 : iscont (byteZ a1) = true) by (unfold iscont, locb, hicb; bsolve).
  rewrite E1, E2, decode2 by lia. fold (rune2 (byteZ a0) (byteZ a1)).
  assert (E3 : (rune1Max <? rune2 (byteZ a0) (byteZ a1)) = true)
    by (unfold rune1Max, rune2; bsolve).
  rewrite E3. reflexivity.
Qed.

Lemma appendRune_2 (a0 a1 : ascii) :
  194 <= byteZ a0 <= 223 -> 128 <= byteZ a1 <= 191 ->
  appendRune (rune2 (byteZ a0) (byteZ a1)) = String a0 (String a1 EmptyString).
Proof.
  intros H0 H1. unfold appendRune. cbv zeta.
  assert (Hr : 128 <= rune2 (byteZ a0) (byteZ a1) <= 2047) by (unfold rune2; lia).
  rewrite (Z.mod_small (rune2 (byteZ a0) (byteZ a1))) by lia.
  assert (E1 : (rune2 (byteZ a0) (byteZ a1) <=? rune1Max) = false)
    by (unfold rune1Max; bsolve).
  assert (E2 : (rune2 (byteZ a0) (byteZ a1) <=? rune2Max) = true)
    by (unfold rune2Max; bsolve).
  rewrite E1, E2, !byteZ_byte.
  destruct (encode2 (byteZ a0 - 192) (byteZ a1 - 128) ltac:(lia) ltac:(lia)) as [X0 X1].
  fold (rune2 (byteZ a0) (byteZ a1)) in X0, X1. rewrite X0, X1.
  replace (192 + (byteZ a0 - 192)) with (byteZ a0) by lia.
  replace (128 + (byteZ a1 - 128)) with (byteZ a1) by lia.
  rewrite !byte_byteZ. reflexivity.
Qed.

Lemma decoderune_3 (a0 a1 a2 : ascii) (rest : string) :
  224 <= byteZ a0 <= 239 -> 128 <= byteZ a1 <= 191 -> 128 <= byteZ a2 <= 191 ->
  (byteZ a0 = 224 -> 160 <= byteZ a1) -> (byteZ a0 = 237 -> byteZ a1 <= 159) ->
  decoderune (String a0 (String a1 (String a2 rest)))
  = (rune3 (byteZ a0) (byteZ a1) (byteZ a2), 3%nat).
Proof.
  intros H0 H1 H2 Hlo Hhi. unfold decoderune. cbv zeta.
  assert (E0 : ((t2 <=? byteZ a0) && (byteZ a0 <? t3)) = false)
    by (unfold t2, t3; bsolve).
  assert (E1 : ((t3 <=? byteZ a0) && (byteZ a0 <? t4)) = true)
    by (unfold t3, t4; bsolve).
  assert (E2 : (iscont (byteZ a1) && iscont (byteZ a2)) = true)
    by (unfold iscont, locb, hicb; bsolve).
  rewrite E0, E1, E2, decode3 by lia. fold (rune3 (byteZ a0) (byteZ a1) (byteZ a2)).
  assert (E3 : ((rune2Max <? rune3 (byteZ a0) (byteZ a1) (byteZ a2))
                && negb ((surrogateMin <=? rune3 (byteZ a0) (byteZ a1) (byteZ a2))
                         && (rune3 (byteZ a0) (byteZ a1) (byteZ a2) <=? surrogateMax)))
               = true)
    by (unfold rune2Max, surrogateMin, surrogateMax, rune3; bsolve).
  rewrite E3. reflexivity.
Qed.

Lemma appendRune_3 (a0 a1 a2 : ascii) :
  224 <= byteZ a0 <= 239 -> 128 <= byteZ a1 <= 191 -> 128 <= byteZ a2 <= 191 ->
  (byteZ a0 = 224 -> 160 <= byteZ a1) -> (byteZ a0 = 237 -> byteZ a1 <= 159) ->
  appendRune (rune3 (byteZ a0) (byteZ a1) (byteZ a2))
  = String a0 (String a1 (String a2 EmptyString)).
Proof.
  intros H0 H1 H2 Hlo Hhi. unfold appendRune. cbv zeta.
  set (r := rune3 (byteZ a0) (byteZ a1) (byteZ a2)).
  assert (Hr : 2048 <= r <= 65535 /\ (r < 55296 \/ 57343 < r))
    by (unfold r, rune3; lia).
  rewrite (Z.mod_small r) by lia.
  assert (E1 : (r <=? rune1Max) = false) by (unfold rune1Max; bsolve).
  assert (E2 : (r <=? rune2Max) = false) by (unfold rune2Max; bsolve).
  assert (E3 : ((maxRune <? r) || ((surrogateMin <=? r) && (r <=? surrogateMax))) = false)
    by (unfold maxRune, surrogateMin, surrogateMax; bsolve).
  assert (E4 : (r <=? rune3Max) = true) by (unfold rune3Max; bsolve).
  rewrite E1, E2, E3, E4, !byteZ_byte.
  destruct (encode3 (byteZ a0 - 224) (byteZ a1 - 128) (byteZ a2 - 128)
              ltac:(lia) ltac:(lia) ltac:(lia)) as (X0 & X1 & X2).
  fold (rune3 (byteZ a0) (byteZ a1) (byteZ a2)) in X0, X1, X2. fold r in X0, X1, X2.
  rewrite X0, X1, X2.
  replace (224 + (byteZ a0 - 224)) with (byteZ a0) by lia.
  replace (128 + (byteZ a1 - 128)) with (byteZ a1) by lia.
  replace (128 + (byteZ a2 - 128)) with (byteZ a2) by lia.
  rewrite !byte_byteZ. reflexivity.
Qed.

Lemma decoderune_4 (a0 a1 a2 a3 : ascii) (rest : string) :
  240 <= byteZ a0 <= 244 ->
  128 <= byteZ a1 <= 191 -> 128 <= byteZ a2 <= 191 -> 128 <= byteZ a3 <= 191 ->
  (byteZ a0 = 240 -> 144 <= byteZ a1) -> (byteZ a0 = 244 -> byteZ a1 <= 143) ->
  decoderune (String a0 (String a1 (String a2 (String a3 rest))))
  = (rune4 (byteZ a0) (byteZ a1) (byteZ a2) (byteZ a3), 4%nat).
Proof.
  intros H0 H1 H2 H3 Hlo Hhi. unfold decoderune. cbv zeta.
  assert (E0 : ((t2 <=? byteZ a0) && (byteZ a0 <? t3)) = false)
    by (unfold t2, t3; bsolve).
  assert (E1 : ((t3 <=? byteZ a0) && (byteZ a0 <? t4)) = false)
    by (unfold t3, t4; bsolve).
  assert (E1' : ((t4 <=? byteZ a0) && (byteZ a0 <? t5)) = true)
    by (unfold t4, t5; bsolve).
  assert (E2 : (iscont (byteZ a1) && iscont (byteZ a2) && iscont (byteZ a3)) = true)
    by (unfold iscont, locb, hicb; bsolve).
  rewrite E0, E1, E1', E2, decode4 by lia.
  fold (rune4 (byteZ a0) (byteZ a1) (byteZ a2) (byteZ a3)).
  assert (E3 : ((rune3Max <? rune4 (byteZ a0) (byteZ a1) (byteZ a2) (byteZ a3))
                && (rune4 (byteZ a0) (byteZ a1) (byteZ a2) (byteZ a3) <=? maxRune))
               = true)
    by (unfold rune3Max, maxRune, rune4; bsolve).
  rewrite E3. reflexivity.
Qed.

Lemma appendRune_4 (a0 a1 a2 a3 : ascii) :
  240 <= byteZ a0 <= 244 ->
  128 <= byteZ a1 <= 191 -> 128 <= byteZ a2 <= 191 -> 128 <= byteZ a3 <= 191 ->
  (byteZ a0 = 240 -> 144 <= byteZ a1) -> (byteZ a0 = 244 -> byteZ a1 <= 143) ->
  appendRune (rune4 (byteZ a0) (byteZ a1) (byteZ a2) (byteZ a3))
  = String a0 (String a1 (String a2 (String a3 EmptyString))).
Proof.
  intros H0 H1 H2 H3 Hlo Hhi. unfold appendRune. cbv zeta.
  set (r := rune4 (byteZ a0) (byteZ a1) (byteZ a2) (byteZ a3)).
  assert (Hr : 65536 <= r <= 1114111) by (unfold r, rune4; lia).
  rewrite (Z.mod_small r) by lia.
  assert (E1 : (r <=? rune1Max) = false) by (unfold rune1Max; bsolve).
  assert (E2 : (r <=? rune2Max) = false) by (unfold rune2Max; bsolve).
  assert (E3 : ((maxRune <? r) || ((surrogateMin <=? r) && (r <=? surrogateMax))) = false)
    by (unfold maxRune, surrogateMin, surrogateMax; bsolve).
  assert (E4 : (r <=? rune3Max) = false) by (unfold rune3Max; bsolve).
  rewrite E1, E2, E3, E4, !byteZ_byte.
  destruct (encode4 (byteZ a0 - 240) (byteZ a1 - 128) (byteZ a2 - 128) (byteZ a3 - 128)
              ltac:(lia) ltac:(lia) ltac:(lia) ltac:(lia)) as (X0 & X1 & X2 & X3).
  fold (rune4 (byteZ a0) (byteZ a1) (byteZ a2) (byteZ a3)) in X0, X1, X2, X3.
  fold r in X0, X1, X2, X3.
  rewrite X0, X1, X2, X3.
  replace (240 + (byteZ a0 - 240)) with (byteZ a0) by lia.
  replace (128 + (byteZ a1 - 128)) with (byteZ a1) by lia.
  replace (128 + (byteZ a2 - 128)) with (byteZ a2) by lia.
  replace (128 + (byteZ a3 - 128)) with (byteZ a3) by lia.
  rewrite !byte_byteZ. reflexivity.
Qed.

(** A non-empty well-formed text starts with one character: [range] reads
    its bytes [bs] as one rune [r], [WriteRune] writes [r] back as [bs], and
    the rest is well-formed; [bs] is one ASCII byte or a sequence of bytes
    from 128 on. *)
Lemma valid_head (s : string) :
  validUTF8 s = true -> s <> EmptyString ->
  exists r bs rest,
    s = (bs ++ rest)%string /\
    runes s = r :: runes rest /\
    appendRune r = bs /\
    validUTF8 rest = true /\
    (String.length rest < String.length s)%nat /\
    ((exists a, bs = String a EmptyString /\ r = byteZ a /\ r < 128) \/
     (128 <= r /\ highBytes bs = true)).
Proof.
  intros H Hne. destruct s as [|a0 r0]; [contradiction|]. clear Hne.
  cbn [validUTF8] in H. pose proof (byteZ_range a0) as R0.
  destruct (Z.leb_spec (byteZ a0) 127) as [L0|L0].
  { exists (byteZ a0), (String a0 EmptyString), r0.
    split; [reflexivity|]. split; [apply runes_ascii; lia|].
    split; [apply appendRune_ascii; lia|]. split; [exact H|].
    split; [simpl; lia|]. left. exists a0. repeat split. lia. }
  destruct r0 as [|a1 r1]; [discriminate H|].
  destruct (between 194 223 (byteZ a0)) eqn:E2.
  { bprop H. bprop E2. destruct H as [H1 Hv].
    exists (rune2 (byteZ a0) (byteZ a1)), (String a0 (String a1 EmptyString)), r1.
    split; [reflexivity|].
    split; [rewrite (runes_multi a0 _ _ _ ltac:(lia) (decoderune_2 a0 a1 r1 ltac:(lia) ltac:(lia)));
            reflexivity|].
    split; [apply appendRune_2; lia|]. split; [exact Hv|].
    split; [simpl; lia|]. right. split; [unfold rune2; lia|].
    simpl. rewrite !andb_true_iff, !Z.leb_le. lia. }
  destruct r1 as [|a2 r2]; [discriminate H|].
  destruct (between 224 239 (byteZ a0)) eqn:E3.
  { assert (H3 : 224 <= byteZ a0 <= 239 /\ 128 <= byteZ a1 <= 191 /\
                 128 <= byteZ a2 <= 191 /\
                 (byteZ a0 = 224 -> 160 <= byteZ a1) /\
                 (byteZ a0 = 237 -> byteZ a1 <= 159) /\ validUTF8 r2 = true).
    { bprop E3.
      destruct (Z.eqb_spec (byteZ a0) 224); [|destruct (Z.eqb_spec (byteZ a0) 237)];
        bprop H; lia || (repeat split; try lia; tauto). }
    destruct H3 as (B0 & B1 & B2 & Hlo & Hhi & Hv).
    exists (rune3 (byteZ a0) (byteZ a1) (byteZ a2)),
           (String a0 (String a1 (String a2 EmptyString))), r2.
    split; [reflexivity|].
    split; [rewrite (runes_multi a0 _ _ _ ltac:(lia)
                       (decoderune_3 a0 a1 a2 r2 B0 B1 B2 Hlo Hhi)); reflexivity|].
    split; [apply appendRune_3; assumption|]. split; [exact Hv|].
    split; [simpl; lia|]. right. split; [unfold rune3; lia|].
    simpl. rewrite !andb_true_iff, !Z.leb_le. lia. }
  destruct r2 as [|a3 r3]; [discriminate H|].
  assert (H4 : 240 <= byteZ a0 <= 244 /\ 128 <= byteZ a1 <= 191 /\
               128 <= byteZ a2 <= 191 /\ 128 <= byteZ a3 <= 191 /\
               (byteZ a0 = 240 -> 144 <= byteZ a1) /\
               (byteZ a0 = 244 -> byteZ a1 <= 143) /\ validUTF8 r3 = true).
  { destruct (Z.eqb_spec (byteZ a0) 240); [|destruct (Z.eqb_spec (byteZ a0) 244)];
      bprop H; lia || (repeat split; try lia; tauto). }
  destruct H4 as (B0 & B1 & B2 & B3 & Hlo & Hhi & Hv).
  exists (rune4 (byteZ a0) (byteZ a1) (byteZ a2) (byteZ a3)),
         (String a0 (String a1 (String a2 (String a3 EmptyString)))), r3.
  split; [reflexivity|].
  split; [rewrite (runes_multi a0 _ _ _ ltac:(lia)
                     (decoderune_4 a0 a1 a2 a3 r3 B0 B1 B2 B3 Hlo Hhi)); reflexivity|].
  split; [apply appendRune_4; assumption|]. split; [exact Hv|].
  split; [simpl; lia|]. right. split; [unfold rune4; lia|].
  simpl. rewrite !andb_true_iff, !Z.leb_le. lia.
Qed.

Lemma stripSGR_cons (a : ascii) (rest : string) :
  stripSGR (String a rest)
  = if Ascii.eqb a esc then stripFrom stateESC rest else String a (stripSGR rest).
Proof.
  destruct rest as [|d rest1]; [simpl; destruct (Ascii.eqb a esc); reflexivity|].
  change (stripSGR (String a (String d rest1)))
    with (if Ascii.eqb a esc
          then if Ascii.eqb d "[" then stripParams rest1
               else String a (stripSGR (String d rest1))
          else String a (stripSGR (String d rest1))).
  destruct (Ascii.eqb_spec a esc) as [->|]; reflexivity.
Qed.

Lemma stripParams_cons (e : ascii) (rest : string) :
  stripParams (String e rest)
  = if Ascii.eqb e "m" then stripSGR rest else stripParams rest.
Proof. reflexivity. Qed.

Lemma eqb_byteZ (a b : ascii) : Ascii.eqb a b = (byteZ a =? byteZ b).
Proof.
  destruct (Ascii.eqb_spec a b) as [->|Hne].
  - symmetry. apply Z.eqb_refl.
  - symmetry. apply Z.eqb_neq. intros E. apply Hne.
    rewrite <- (byte_byteZ a), <- (byte_byteZ b), E. reflexivity.
Qed.

Lemma plainText_app (l1 l2 : list text) :
  plainText (l1 ++ l2) = (plainText l1 ++ plainText l2)%string.
Proof.
  induction l1 as [|t l1 IH]; simpl; [reflexivity|].
  rewrite IH, append_assoc. reflexivity.
Qed.

Lemma out_append (p : parser) : out (append p) = out p.
Proof.
  unfold out, append. simpl. rewrite plainText_app. simpl.
  rewrite !append_empty_r. reflexivity.
Qed.

Lemma stripSGR_high (bs rest : string) :
  highBytes bs = true -> stripSGR (bs ++ rest) = (bs ++ stripSGR rest)%string.
Proof.
  induction bs as [|a bs IH]; intros H; [reflexivity|].
  cbn [highBytes] in H.
  apply andb_true_iff in H. destruct H as [Ha Hbs]. apply Z.leb_le in Ha.
  change (String a bs ++ rest)%string with (String a (bs ++ rest)).
  rewrite stripSGR_cons, eqb_byteZ. change (byteZ esc) with 27.
  destruct (Z.eqb_spec (byteZ a) 27); [lia|]. rewrite IH by assumption. reflexivity.
Qed.

Lemma stripParams_high (bs rest : string) :
  highBytes bs = true -> stripParams (bs ++ rest) = stripParams rest.
Proof.
  induction bs as [|a bs IH]; intros H; [reflexivity|].
  cbn [highBytes] in H.
  apply andb_true_iff in H. destruct H as [Ha Hbs]. apply Z.leb_le in Ha.
  change (String a bs ++ rest)%string with (String a (bs ++ rest)).
  rewrite stripParams_cons, eqb_byteZ. change (byteZ "m") with 109.
  destruct (Z.eqb_spec (byteZ a) 109); [lia|]. apply IH. assumption.
Qed.

(** A successful call leaves the text read so far as it was, or adds the
    bytes of its rune in [parsePlain]. *)
Lemma out_parseCSI_m (p p2 : parser) (next : parseState) :
  parseCSI 109 p = (p2, inl next) -> next = statePlain /\ out p2 = out p.
Proof.
  unfold parseCSI. simpl.
  destruct (atoiAll (Split (p_c p))) as [codes|e]; [|intros H; discriminate H].
  destruct (sgrLoop codes (set_c p EmptyString)) as [p3 [e|]] eqn:E;
    intros H; [discriminate H|].
  injection H as <- <-. split; [reflexivity|].
  destruct (sgrLoop_frame _ _ _ _ _ (Nat.le_refl _) E) as (_ & Hts & Hb & _).
  unfold out. rewrite Hts, Hb. reflexivity.
Qed.

(** The state machine and [stripSGR] in step: what a successful run over a
    well-formed text [s] adds to the text read so far is what [stripSGR]
    leaves of [s]. *)
Lemma strip_sim (n : nat) :
  forall s, (String.length s <= n)%nat -> validUTF8 s = true ->
  forall st p p', parseLoop (runes s) st p = (p', None) ->
    out p' = (out p ++ stripFrom st s)%string.
Proof.
  induction n as [|n IH]; intros s Hlen Hv st p p' Hrun.
  - destruct s; [|simpl in Hlen; lia]. injection Hrun as <-.
    destruct st; simpl; rewrite append_empty_r; reflexivity.
  - destruct s as [|a0 s0].
    { injection Hrun as <-. destruct st; simpl; rewrite append_empty_r; reflexivity. }
    destruct (valid_head _ Hv ltac:(discriminate))
      as (r & bs & rest & Hs & Hr & Hbs & Hvr & Hl & Hkind).
    rewrite Hr in Hrun. simpl in Hrun.
    destruct (callState st r p) as [p2 [next|e]] eqn:Ecall; [|discriminate Hrun].
    assert (Hrest : (String.length rest <= n)%nat) by lia.
    pose proof (IH rest Hrest Hvr _ _ _ Hrun) as Hout.
    change (out (set_state p2 (Some next))) with (out p2) in Hout.
    rewrite Hout, Hs. clear Hout Hrun IH.
    destruct Hkind as [(a & -> & -> & Hsmall) | (Hbig & Hhigh)].
    + (* one byte below 128 *)
      change (String a EmptyString ++ rest)%string with (String a rest).
      destruct st; simpl in Ecall.
      * unfold parsePlain in Ecall. cbn [stripFrom]. rewrite stripSGR_cons, eqb_byteZ.
        change (byteZ esc) with 27. destruct (byteZ a =? 27).
        -- injection Ecall as <- <-.
           destruct (0 <? String.length (p_b p))%nat; [rewrite out_append|]; reflexivity.
        -- injection Ecall as <- <-. unfold out, WriteRune. simpl.
           rewrite Hbs, !append_assoc. reflexivity.
      * unfold parseESC in Ecall. cbn [stripFrom]. rewrite eqb_byteZ.
        change (byteZ "[") with 91. destruct (byteZ a =? 91); [|discriminate Ecall].
        injection Ecall as <- <-. reflexivity.
      * cbn [stripFrom]. rewrite stripParams_cons, eqb_byteZ.
        change (byteZ "m") with 109. destruct (Z.eqb_spec (byteZ a) 109) as [E|E].
        -- rewrite E in Ecall. destruct (out_parseCSI_m _ _ _ Ecall) as [-> ->].
           reflexivity.
        -- unfold parseCSI in Ecall. apply Z.eqb_neq in E. rewrite E in Ecall.
           injection Ecall as <- <-. reflexivity.
    + (* a sequence of bytes from 128 on *)
      destruct st; simpl in Ecall.
      * unfold parsePlain in Ecall. cbn [stripFrom].
        destruct (Z.eqb_spec r 27); [lia|].
        injection Ecall as <- <-. rewrite stripSGR_high by assumption.
        unfold out, WriteRune. simpl. rewrite Hbs, !append_assoc. reflexivity.
      * unfold parseESC in Ecall. destruct (Z.eqb_spec r 91); [lia|discriminate Ecall].
      * unfold parseCSI in Ecall. destruct (Z.eqb_spec r 109); [lia|].
        injection Ecall as <- <-. cbn [stripFrom].
        rewrite stripParams_high by assumption. reflexivity.
Qed.

Lemma noEsc_app_r (bs rest : string) :
  noEsc (bs ++ rest) = true -> noEsc rest = true.
Proof.
  induction bs as [|a bs IH]; intros H; [exact H|].
  change (String a bs ++ rest)%string with (String a (bs ++ rest)) in H.
  cbn [noEsc] in H. apply andb_true_iff in H. apply IH. apply H.
Qed.

(** Over a well-formed text without escape introducer the loop stays in
    [parsePlain] and copies the text to the buffer. *)
Lemma plain_loop (n : nat) :
  forall s, (String.length s <= n)%nat -> validUTF8 s = true -> noEsc s = true ->
  forall p, p_state p = Some statePlain ->
    parseLoop (runes s) statePlain p = (set_b p (p_b p ++ s), None).
Proof.
  induction n as [|n IH]; intros s Hlen Hv Hne p Hst.
  - destruct s; [|simpl in Hlen; lia]. simpl. rewrite append_empty_r.
    destruct p; reflexivity.
  - destruct s as [|a0 s0].
    { simpl. rewrite append_empty_r. destruct p; reflexivity. }
    destruct (valid_head _ Hv ltac:(discriminate))
      as (r & bs & rest & Hs & Hr & Hbs & Hvr & Hl & Hkind).
    rewrite Hr, Hs. rewrite Hs in Hne. cbn [parseLoop callState]. unfold parsePlain.
    assert (Hr27 : (r =? 27) = false).
    { apply Z.eqb_neq. destruct Hkind as [(a & -> & -> & Hsmall) | (Hbig & Hhigh)]; [|lia].
      change (String a EmptyString ++ rest)%string with (String a rest) in Hne.
      cbn [noEsc] in Hne. apply andb_true_iff in Hne. destruct Hne as [Ha _].
      rewrite eqb_byteZ in Ha. change (byteZ esc) with 27 in Ha.
      apply negb_true_iff in Ha. apply Z.eqb_neq in Ha. exact Ha. }
    rewrite Hr27.
    rewrite (IH rest ltac:(lia) Hvr (noEsc_app_r _ _ Hne)) by reflexivity.
    unfold WriteRune. rewrite Hbs. destruct p as [st ts b c bg fg bold].
    simpl in Hst. subst st. simpl. rewrite append_assoc. reflexivity.
Qed.

(** ** Plain text *)

(** C1 (as the code has it).  For an input that is well-formed UTF-8 and
    that [parse] accepts, the texts of the runs, concatenated in order, are
    the input without its SGR escape sequences and without an escape
    sequence cut short by the end of the input. *)
Theorem plain_text_strips_sgr (input : string) (ts : list text)
    (Hvalid : validUTF8 input = true) (Hok : parse input = (ts, None)) :
  plainText ts = stripSGR input.
Proof.
  destruct input as [|a s].
  - injection Hok as <-. reflexivity.
  - rewrite parse_parser_parse in Hok by discriminate.
    unfold parser_parse in Hok.
    change (set_state (set_ts zeroParser []) (Some statePlain)) with startParser in Hok.
    destruct (parseLoop (runes (String a s)) statePlain startParser)
      as [p [e|]] eqn:E; simpl in Hok; [discriminate Hok|].
    injection Hok as <-.
    pose proof (strip_sim _ _ (Nat.le_refl _) Hvalid _ _ _ E) as Hout.
    change (out startParser) with EmptyString in Hout.
    assert (Ho : out (append p) = plainText (p_ts (append p)))
      by (unfold out; apply append_empty_r).
    change (plainText (p_ts (append p)) = stripSGR (String a s)).
    rewrite <- Ho, out_append. exact Hout.
Qed.

Lemma plain_text_strips_sgr_witness :
  plainText [plainRun "some"; mkText "color" "#000080" "#008080" false]
  = stripSGR ("some" ++ String esc "[36;44mcolor").
Proof.
  apply (plain_text_strips_sgr ("some" ++ String esc "[36;44mcolor")
           [plainRun "some"; mkText "color" "#000080" "#008080" false]).
  - reflexivity.
  - reflexivity.
Defined.

(** C1 as stated fails on an input that is not UTF-8: [range] reads the byte
    255 as U+FFFD and [WriteRune] writes the three bytes of U+FFFD, so the
    text of the run is not the input, which holds no escape sequence. *)
Lemma plain_text_invalid_utf8 :
  parse invalidByte = ([plainRun replacement], None) /\
  stripSGR invalidByte = invalidByte /\
  plainText (fst (parse invalidByte)) <> stripSGR invalidByte.
Proof.
  split; [reflexivity|]. split; [reflexivity|]. intros H. discriminate H.
Qed.

(** C4 (as the code has it).  For an input that is well-formed UTF-8 and
    holds no escape introducer, [parse] returns one run, the whole input in
    the default style, unless the input is empty, and [parseHTML] returns
    the escaped input with no span around it. *)
Theorem plain_input (input : string)
    (Hvalid : validUTF8 input = true) (Hplain : noEsc input = true) :
  (input <> EmptyString -> parse input = ([plainRun input], None)) /\
  parseHTML input = (EscapeString input, None).
Proof.
  assert (Hloop : parseLoop (runes input) statePlain startParser
                  = (set_b startParser input, None)).
  { rewrite (plain_loop _ _ (Nat.le_refl _) Hvalid Hplain) by reflexivity.
    reflexivity. }
  split.
  - intros Hne. rewrite parse_parser_parse by assumption. unfold parser_parse.
    change (set_state (set_ts zeroParser []) (Some statePlain)) with startParser.
    rewrite Hloop. reflexivity.
  - unfold parseHTML, parser_parse.
    change (set_state (set_ts zeroParser []) (Some statePlain)) with startParser.
    rewrite Hloop. reflexivity.
Qed.

Lemma plain_input_witness :
  parse "plain <b>" = ([plainRun "plain <b>"], None) /\
  parseHTML "plain <b>" = ("plain &lt;b&gt;", None).
Proof.
  split.
  - apply (proj1 (plain_input "plain <b>" eq_refl eq_refl)). discriminate.
  - apply (proj2 (plain_input "plain <b>" eq_refl eq_refl)).
Defined.

(** C4 as stated fails on two inputs without an escape introducer: the empty
    input, for which [parse] returns no run, and an input that is not UTF-8,
    whose run and HTML hold U+FFFD in place of the offending byte. *)
Lemma plain_input_exceptions :
  noEsc EmptyString = true /\ parse EmptyString = ([], None) /\
  noEsc invalidByte = true /\
  parse invalidByte = ([plainRun replacement], None) /\
  parseHTML invalidByte = (replacement, None) /\
  EscapeString invalidByte = invalidByte /\
  replacement <> invalidByte.
Proof.
  repeat (split; [reflexivity|]). intros H. discriminate H.
Qed.

(** No escape introducer among the bytes is no escape introducer among the
    code points. *)
Lemma noEsc_app (s1 s2 : string) : noEsc (s1 ++ s2) = noEsc s1 && noEsc s2.
Proof.
  induction s1 as [|a s1 IH]; [reflexivity|].
  change (String a s1 ++ s2)%string with (String a (s1 ++ s2)).
  cbn [noEsc]. rewrite IH. apply andb_assoc.
Qed.

Lemma noEsc_high (bs : string) : highBytes bs = true -> noEsc bs = true.
Proof.
  induction bs as [|a bs IH]; intros H; [reflexivity|].
  cbn [highBytes] in H. apply andb_true_iff in H. destruct H as [Ha Hbs].
  apply Z.leb_le in Ha. cbn [noEsc]. rewrite (IH Hbs), eqb_byteZ.
  change (byteZ esc) with 27. destruct (Z.eqb_spec (byteZ a) 27); [lia | reflexivity].
Qed.

Lemma noEsc_runes (n : nat) :
  forall s, (String.length s <= n)%nat -> validUTF8 s = true ->
    (noEsc s = true <-> ~ In 27 (runes s)).
Proof.
  induction n as [|n IH]; intros s Hlen Hv.
  - destruct s; [|simpl in Hlen; lia]. split; [intros _ [] | reflexivity].
  - destruct s as [|a0 s0]; [split; [intros _ [] | reflexivity]|].
    destruct (valid_head _ Hv ltac:(discriminate))
      as (r & bs & rest & Hs & Hr & Hbs & Hvr & Hl & Hkind).
    rewrite Hr, Hs, noEsc_app, andb_true_iff.
    rewrite (IH rest ltac:(lia) Hvr). simpl In.
    destruct Hkind as [(a & -> & -> & Hsmall) | (Hbig & Hhigh)].
    + cbn [noEsc]. rewrite andb_true_r, eqb_byteZ. change (byteZ esc) with 27.
      destruct (Z.eqb_spec (byteZ a) 27) as [E|E]; simpl.
      * split; [intros [H _]; discriminate H | intros H; exfalso; apply H; left; lia].
      * split; [intros [_ H] [H1|H1]; [lia | exact (H H1)] |
                intros H; split; [reflexivity | intros H1; apply H; right; exact H1]].
    + rewrite (noEsc_high _ Hhigh).
      split; [intros [_ H] [H1|H1]; [lia | exact (H H1)] |
              intros H; split; [reflexivity | intros H1; apply H; right; exact H1]].
Qed.

(** ** Examples *)

(** [validUTF8] on a two-byte character, an overlong form, a surrogate and a
    code point above U+10FFFF. *)
Example validUTF8_examples :
  validUTF8 (String "195"%char (String "169"%char "!")) = true /\
  validUTF8 (String "192"%char (String "128"%char EmptyString)) = false /\
  validUTF8 (String "237"%char (String "160"%char (String "128"%char EmptyString))) = false /\
  validUTF8 (String "244"%char (String "144"%char (String "128"%char
              (String "128"%char EmptyString)))) = false /\
  runes (String "195"%char (String "169"%char "!")) = [233; 33] /\
  runes (String "237"%char (String "160"%char (String "128"%char EmptyString)))
  = [runeError; runeError; runeError].
Proof. repeat split. Qed.

(** The cases of [TestParse], the repository's test of [parse]. *)
Example TestParse_empty : parse EmptyString = ([], None).
Proof. reflexivity. Qed.

Example TestParse_plain : parse "plain" = ([plainRun "plain"], None).
Proof. reflexivity. Qed.

Example TestParse_low_colors :
  parse ("some" ++ String esc "[36;44mcolor")
  = ([plainRun "some"; mkText "color" "#000080" "#008080" false], None).
Proof. reflexivity. Qed.

Example TestParse_high_colors :
  parse ("some" ++ String esc "[96;104mcolor")
  = ([plainRun "some"; mkText "color" "#0000ff" "#00ffff" false], None).
Proof. reflexivity. Qed.

Example TestParse_256_low :
  parse (String esc "[38;5;1;48;5;2mword")
  = ([mkText "word" "#008000" "#800000" false], None).
Proof. reflexivity. Qed.

Example TestParse_256_high :
  parse (String esc "[38;5;8;48;5;9mword")
  = ([mkText "word" "#ff0000" "#808080" false], None).
Proof. reflexivity. Qed.

Example TestParse_cube_black :
  parse (String esc "[38;5;16mword") = ([mkText "word" EmptyString "#000000" false], None).
Proof. reflexivity. Qed.

Example TestParse_cube_color :
  parse (String esc "[38;5;42mword") = ([mkText "word" EmptyString "#00d787" false], None).
Proof. reflexivity. Qed.

Example TestParse_grayscale :
  parse (String esc "[38;5;243mword") = ([mkText "word" EmptyString "#767676" false], None).
Proof. reflexivity. Qed.

Example TestParse_reset :
  parse ("foo" ++ String esc "[31mbar" ++ String esc "[0mbaz")
  = ([plainRun "foo"; mkText "bar" EmptyString "#800000" false; plainRun "baz"], None).
Proof. reflexivity. Qed.

Example TestParse_bold :
  parse (String esc "[1mfoo") = ([mkText "foo" EmptyString EmptyString true], None).
Proof. reflexivity. Qed.

Example TestParse_multiple :
  parse (String esc "[1m" ++ String esc "[33mfoo")
  = ([mkText "foo" EmptyString "#808000" true], None).
Proof. reflexivity. Qed.

(** Three inputs that [parse] rejects: an [ESC] not followed by ['['], the
    empty parameter list of [ESC "[m"], and a 38 without its two entries. *)
Example parse_rejects :
  parse (String esc "c") = ([], Some parseError) /\
  parse (String esc "[m") = ([], Some (NumError EmptyString ErrSyntax)) /\
  parse (String esc "[38;5mx") = ([], Some parseError) /\
  parse (String esc "[38;5;300mx") = ([plainRun "x"], None).
Proof. repeat split. Qed.

(** * Further properties of the code *)

(** ** What an escape sequence leaves alone *)

(** [parseCSI] never changes the runs or the text buffer. *)
Lemma parseCSI_frame (c : rune) (p : parser) :
  p_ts (fst (parseCSI c p)) = p_ts p /\ p_b (fst (parseCSI c p)) = p_b p.
Proof.
  unfold parseCSI. destruct (c =? 109); [|split; reflexivity].
  destruct (atoiAll (Split (p_c p))) as [codes|e]; [|split; reflexivity].
  destruct (sgrLoop codes (set_c p EmptyString)) as [p3 [e|]] eqn:E;
    destruct (sgrLoop_frame _ _ _ _ _ (Nat.le_refl _) E) as (_ & Hts & Hb & _);
    split; assumption.
Qed.

(** X1.  The two methods that read an escape sequence, [parseESC] and
    [parseCSI], never change the runs or the text buffer, whatever the rune
    and whether they fail or not: an escape sequence adds no text and drops
    none. *)
Theorem escape_sequence_keeps_text (c : rune) (p : parser) :
  p_ts (fst (parseESC c p)) = p_ts p /\ p_b (fst (parseESC c p)) = p_b p /\
  p_ts (fst (parseCSI c p)) = p_ts p /\ p_b (fst (parseCSI c p)) = p_b p.
Proof.
  split; [|split]; [unfold parseESC; destruct (c =? 91); reflexivity ..|].
  apply parseCSI_frame.
Qed.

(** ** The SGR loop without 38 and 48 *)

(** A code other than 38 and 48 is one step on the style. *)
Lemma sgrLoop_simple (c : Z) (rest : list Z) (p : parser) :
  c <> 38 -> c <> 48 -> sgrLoop (c :: rest) p = sgrLoop rest (sgrStep c p).
Proof.
  intros H38 H48. cbn [sgrLoop]. unfold sgrStep, resetStyle.
  destruct (0 =? c); [reflexivity|]. destruct (1 =? c); [reflexivity|].
  destruct ((30 <=? c) && (c <=? 37)); [reflexivity|].
  destruct (Z.eqb_spec 38 c); [lia|].
  destruct ((40 <=? c) && (c <=? 47)); [reflexivity|].
  destruct (Z.eqb_spec 48 c); [lia|].
  destruct ((90 <=? c) && (c <=? 97)); [reflexivity|].
  destruct ((100 <=? c) && (c <=? 107)); reflexivity.
Qed.

Lemma sgrLoop_fold (codes : list Z) :
  forall p, ~ In 38 codes -> ~ In 48 codes ->
    sgrLoop codes p = (fold_left (fun q c => sgrStep c q) codes p, None).
Proof.
  induction codes as [|c rest IH]; intros p H38 H48; [reflexivity|].
  rewrite sgrLoop_simple;
    [| intros ->; apply H38; left; reflexivity | intros ->; apply H48; left; reflexivity].
  simpl fold_left. apply IH; intros H; [apply H38 | apply H48]; right; exact H.
Qed.

Lemma sgrStep_frame (c : Z) (p : parser) :
  p_state (sgrStep c p) = p_state p /\ p_ts (sgrStep c p) = p_ts p /\
  p_b (sgrStep c p) = p_b p /\ p_c (sgrStep c p) = p_c p.
Proof.
  unfold sgrStep. repeat match goal with |- context [if ?b then _ else _] => destruct b end;
    repeat split.
Qed.

Lemma fold_sgrStep_frame (codes : list Z) :
  forall p, let q := fold_left (fun q c => sgrStep c q) codes p in
    p_state q = p_state p /\ p_ts q = p_ts p /\ p_b q = p_b p /\ p_c q = p_c p.
Proof.
  induction codes as [|c rest IH]; intros p; simpl; [repeat split|].
  destruct (IH (sgrStep c p)) as (H1 & H2 & H3 & H4).
  destruct (sgrStep_frame c p) as (G1 & G2 & G3 & G4).
  rewrite H1, H2, H3, H4. repeat split; assumption.
Qed.

Lemma resetStyle_frame (p q : parser) :
  p_state q = p_state p -> p_ts q = p_ts p -> p_b q = p_b p -> p_c q = p_c p ->
  resetStyle q = resetStyle p.
Proof.
  destruct p, q. simpl. intros -> -> -> ->. reflexivity.
Qed.

(** X2.  A parameter list that ends in 0 and holds no 38 and no 48 leaves
    the default style, whatever the codes before the 0 and whatever the
    style before: nothing else of the state changes and the loop does not
    fail. *)
Theorem sgr_reset_last (codes : list Z) (p : parser)
    (H38 : ~ In 38 codes) (H48 : ~ In 48 codes) :
  sgrLoop (codes ++ [0])%list p = (resetStyle p, None).
Proof.
  rewrite sgrLoop_fold.
  - rewrite fold_left_app. simpl.
    change (sgrStep 0 ?q) with (resetStyle q).
    destruct (fold_sgrStep_frame codes p) as (H1 & H2 & H3 & H4).
    rewrite (resetStyle_frame p _ H1 H2 H3 H4). reflexivity.
  - intros H. apply in_app_or in H. destruct H as [H|[H|[]]]; [exact (H38 H) | discriminate H].
  - intros H. apply in_app_or in H. destruct H as [H|[H|[]]]; [exact (H48 H) | discriminate H].
Qed.

Lemma sgr_reset_last_witness :
  sgrLoop ([1; 31; 44] ++ [0])%list startParser = (resetStyle startParser, None).
Proof.
  apply (sgr_reset_last [1; 31; 44] startParser);
    simpl; intros H; repeat (destruct H as [H|H]; [discriminate H|]); exact H.
Defined.

Lemma sgrStep_unsupported (c : Z) (p : parser) :
  supported c = false -> sgrStep c p = p /\ c <> 38 /\ c <> 48.
Proof.
  unfold supported, sgrStep. intros H.
  repeat (apply orb_false_iff in H; destruct H as [H ?]).
  repeat match goal with
  | E : (_ && _) = false |- _ => apply andb_false_iff in E
  | E : (_ =? _) = false |- _ => apply Z.eqb_neq in E
  | E : (_ <=? _) = false |- _ => apply Z.leb_gt in E
  end.
  split; [|lia].
  destruct (Z.eqb_spec 0 c); [lia|]. destruct (Z.eqb_spec 1 c); [lia|].
  repeat match goal with
  | |- context [Z.leb ?a ?b] => destruct (Z.leb_spec a b); simpl; try lia
  end; reflexivity.
Qed.

(** X3.  Codes that the loop does not know (any number other than 0, 1,
    30..38, 40..48, 90..97 and 100..107: underline 4, default colour 39,
    negative numbers, ...) are accepted and change nothing. *)
Theorem sgr_unsupported_ignored (codes : list Z) (p : parser)
    (H : forallb (fun c => negb (supported c)) codes = true) :
  sgrLoop codes p = (p, None).
Proof.
  revert p. induction codes as [|c rest IH]; intros p; [reflexivity|].
  simpl in H. apply andb_true_iff in H. destruct H as [Hc Hrest].
  apply negb_true_iff in Hc.
  destruct (sgrStep_unsupported c p Hc) as (Hp & H38 & H48).
  rewrite sgrLoop_simple, Hp by assumption. apply IH. exact Hrest.
Qed.

Lemma sgr_unsupported_ignored_witness :
  sgrLoop [4; 39; 49; 22; -1; 108] (set_fg startParser "#800000")
  = (set_fg startParser "#800000", None).
Proof.
  apply (sgr_unsupported_ignored [4; 39; 49; 22; -1; 108] (set_fg startParser "#800000")).
  reflexivity.
Defined.

(** X4.  The SGR loop fails on 38 and 48 only: a parameter list without
    them is accepted, whatever its numbers. *)
Theorem sgr_fails_only_on_38_48 (codes : list Z) (p : parser)
    (H38 : ~ In 38 codes) (H48 : ~ In 48 codes) :
  snd (sgrLoop codes p) = None.
Proof. rewrite sgrLoop_fold by assumption. reflexivity. Qed.

Lemma sgr_fails_only_on_38_48_witness :
  snd (sgrLoop [1; 31; 4; 107; 0; 39] startParser) = None.
Proof.
  apply (sgr_fails_only_on_38_48 [1; 31; 4; 107; 0; 39] startParser);
    simpl; intros H; repeat (destruct H as [H|H]; [discriminate H|]); exact H.
Defined.

(** ** More on the SGR loop *)

Lemma sgrLoop_bold (n : nat) :
  forall codes p, (List.length codes <= n)%nat -> ~ In 0 codes -> p_bold p = true ->
    p_bold (fst (sgrLoop codes p)) = true.
Proof.
  induction n as [|n IH]; intros codes p Hlen H0 Hb.
  - destruct codes; [exact Hb | simpl in Hlen; lia].
  - destruct codes as [|c rest]; [exact Hb|].
    simpl in Hlen. cbn [sgrLoop].
    destruct (Z.eqb_spec 0 c) as [E|E]; [exfalso; apply H0; left; symmetry; exact E|].
    assert (Hrest : ~ In 0 rest) by (intros H; apply H0; right; exact H).
    repeat match goal with
    | |- context [if ?b then _ else _] => destruct b
    | |- context [match ?l with [] => _ | _ :: _ => _ end] => destruct l; simpl in Hlen
    | |- p_bold (fst (_, Some _)) = true => exact Hb
    | |- p_bold (fst (sgrLoop ?l ?q)) = true =>
        apply IH;
        [ simpl in *; lia
        | intros H; apply Hrest; simpl in *; tauto
        | first [exact Hb | reflexivity] ]
    end.
Qed.

(** X5.  Once bold is on, only code 0 switches it off: a parameter list
    without 0 leaves a bold style bold. *)
Theorem sgr_bold_sticky (codes : list Z) (p : parser)
    (H0 : ~ In 0 codes) (Hb : p_bold p = true) :
  p_bold (fst (sgrLoop codes p)) = true.
Proof. apply (sgrLoop_bold (List.length codes)); [lia | exact H0 | exact Hb]. Qed.

Lemma sgr_bold_sticky_witness :
  p_bold (fst (sgrLoop [31; 22; 38; 5; 9; 48] (set_bold startParser true))) = true.
Proof.
  apply (sgr_bold_sticky [31; 22; 38; 5; 9; 48] (set_bold startParser true));
    [|reflexivity].
  simpl. intros H. repeat (destruct H as [H|H]; [discriminate H|]). exact H.
Defined.

(** X6.  Codes before which no 38 or 48 stands act one after the other: the
    loop over [l1 ++ l2] is the loop over [l2] in the style [l1] leaves. *)
Theorem sgr_codes_compose (l1 l2 : list Z) (p : parser)
    (H38 : ~ In 38 l1) (H48 : ~ In 48 l1) :
  sgrLoop (l1 ++ l2)%list p = sgrLoop l2 (fst (sgrLoop l1 p)).
Proof.
  revert p. induction l1 as [|c l1 IH]; intros p; [reflexivity|].
  rewrite <- app_comm_cons.
  rewrite !sgrLoop_simple;
    try (intros ->; apply H38; left; reflexivity);
    try (intros ->; apply H48; left; reflexivity).
  apply IH; intros H; [apply H38 | apply H48]; right; exact H.
Qed.

Lemma sgr_codes_compose_witness :
  sgrLoop ([1; 31] ++ [38; 5; 200])%list startParser
  = sgrLoop [38; 5; 200] (fst (sgrLoop [1; 31] startParser)).
Proof.
  apply (sgr_codes_compose [1; 31] [38; 5; 200] startParser);
    simpl; intros H; repeat (destruct H as [H|H]; [discriminate H|]); exact H.
Defined.

(** ** The numbers of an escape sequence *)

Lemma parseUintLoop_nonneg (s : string) :
  forall n m, 0 <= n -> parseUintLoop s n = inr m -> 0 <= m.
Proof.
  induction s as [|ch rest IH]; intros n m Hn H; cbn [parseUintLoop] in H.
  - injection H as <-. exact Hn.
  - destruct (isdigit ch) eqn:D; [|discriminate H].
    destruct (maxUint64 / 10 + 1 <=? n); [discriminate H|].
    cbv zeta in H.
    destruct (maxUint64 <? n * 10 + (byteZ ch - 48)); [discriminate H|].
    unfold isdigit in D. bprop D.
    apply (IH (n * 10 + (byteZ ch - 48)) m); [lia | exact H].
Qed.

Lemma Atoi_range (s : string) (n : Z) :
  Atoi s = inl n -> - 2 ^ 63 <= n <= 2 ^ 63 - 1.
Proof.
  unfold Atoi. destruct s as [|a rest]; [discriminate|]. cbv zeta.
  destruct (ParseUint (if Ascii.eqb a "+" || Ascii.eqb a "-" then rest
                       else String a rest)) as [[|]|un] eqn:E; try discriminate.
  assert (Hun : 0 <= un).
  { unfold ParseUint in E.
    destruct (if Ascii.eqb a "+" || Ascii.eqb a "-" then rest else String a rest);
      [discriminate E|].
    apply (parseUintLoop_nonneg _ 0 un ltac:(lia) E). }
  destruct (Ascii.eqb a "-"); cbn [negb andb].
  - destruct (Z.ltb_spec (2 ^ 63) un); [discriminate|]. intros [= <-]. lia.
  - destruct (Z.leb_spec (2 ^ 63) un); [discriminate|]. intros [= <-]. lia.
Qed.

Lemma Atoi_error (s : string) (e : error) :
  Atoi s = inr e -> exists k, e = NumError s k.
Proof.
  unfold Atoi. destruct s as [|a rest]; [intros [= <-]; eexists; reflexivity|].
  cbv zeta.
  destruct (ParseUint (if Ascii.eqb a "+" || Ascii.eqb a "-" then rest
                       else String a rest)) as [[|]|un];
    try (intros [= <-]; eexists; reflexivity).
  destruct (negb (Ascii.eqb a "-") && (2 ^ 63 <=? un));
    [intros [= <-]; eexists; reflexivity|].
  destruct (Ascii.eqb a "-" && (2 ^ 63 <? un));
    [intros [= <-]; eexists; reflexivity | discriminate].
Qed.

(** X7.  Every number that reaches the SGR loop fits Go's 64-bit [int], so
    that no subtraction of the loop and of [color8bit] wraps around. *)
Theorem codes_in_int_range (strs : list string) (codes : list Z)
    (Hok : atoiAll strs = inl codes) :
  Forall (fun c => - 2 ^ 63 <= c <= 2 ^ 63 - 1) codes.
Proof.
  revert codes Hok. induction strs as [|str rest IH]; intros codes H; simpl in H.
  - injection H as <-. constructor.
  - destruct (Atoi str) as [n|e] eqn:E; [|discriminate H].
    destruct (atoiAll rest) as [ns|e]; [|discriminate H].
    injection H as <-. constructor; [exact (Atoi_range _ _ E) | apply IH; reflexivity].
Qed.

Lemma codes_in_int_range_witness :
  Forall (fun c => - 2 ^ 63 <= c <= 2 ^ 63 - 1) [38; 5; -9223372036854775808].
Proof.
  apply (codes_in_int_range ["38"; "+5"; "-9223372036854775808"]). reflexivity.
Defined.

Lemma atoiAll_fails (strs : list string) (str : string) (e : error) :
  In str strs -> Atoi str = inr e -> exists e', atoiAll strs = inr e'.
Proof.
  induction strs as [|x rest IH]; intros Hin He; [destruct Hin|]. simpl.
  destruct (Atoi x) as [n|e1] eqn:E; [|eexists; reflexivity].
  destruct Hin as [->|Hin]; [rewrite He in E; discriminate E|].
  destruct (IH Hin He) as [e' ->]. eexists. reflexivity.
Qed.

(** X8.  An escape sequence with an empty parameter fails with the error of
    [strconv.Atoi] and leaves the style as it is. *)
Theorem empty_parameter_fails (p : parser)
    (Hempty : In EmptyString (Split (p_c p))) :
  exists str k,
    In str (Split (p_c p)) /\
    parseCSI 109 p = (set_c p EmptyString, inr (NumError str k)).
Proof.
  destruct (atoiAll_fails _ _ _ Hempty eq_refl) as [e He].
  destruct (atoiAll_error _ _ He) as (str & Hin & Hs).
  destruct (Atoi_error _ _ Hs) as [k ->].
  exists str, k. split; [exact Hin|].
  unfold parseCSI. simpl. rewrite He. reflexivity.
Qed.

Lemma empty_parameter_fails_witness :
  exists str k,
    In str (Split (p_c (set_c startParser "1;;31"))) /\
    parseCSI 109 (set_c startParser "1;;31")
    = (set_c (set_c startParser "1;;31") EmptyString, inr (NumError str k)).
Proof.
  apply (empty_parameter_fails (set_c startParser "1;;31")).
  simpl. right. left. reflexivity.
Defined.

(** ** [parseHTML] and [parse] *)

(** X9.  [parseHTML] fails exactly when [parse] fails, with the same
    error, on every input (the empty one included, where neither fails). *)
Theorem parseHTML_fails_as_parse (bs : string) :
  snd (parseHTML bs) = snd (parse bs).
Proof.
  destruct bs as [|a s]; [reflexivity|].
  rewrite parse_parser_parse by discriminate. unfold parseHTML.
  destruct (parser_parse (String a s) zeroParser) as [p [e|]]; reflexivity.
Qed.

(** ** [color8bit] outside its range *)

Lemma color8bit_nonempty (N : Z) : 0 <= N <= 255 -> color8bit N <> EmptyString.
Proof.
  intros H.
  assert (E : negb (String.eqb (color8bit N) EmptyString) = true).
  { apply (forall_range (fun k => negb (String.eqb (color8bit k) EmptyString)) 0 256);
      [vm_compute; reflexivity | lia]. }
  apply negb_true_iff in E. apply String.eqb_neq. exact E.
Qed.

(** X10.  [color8bit] gives the empty colour exactly for the numbers
    outside 0..255; the SGR loop stores it, so [38;5;N] with such an [N]
    clears the foreground colour. *)
Theorem color8bit_empty_iff (N : Z) :
  color8bit N = EmptyString <-> (N < 0 \/ 255 < N).
Proof.
  split; [|apply color8bit_other].
  intros H. destruct (Z.lt_ge_cases N 0); [left; assumption|].
  destruct (Z.lt_ge_cases 255 N); [right; assumption|].
  exfalso. apply (color8bit_nonempty N); [lia | exact H].
Qed.

Lemma encodes_appendRune (r : rune) (bs : string) : encodes r bs -> appendRune r = bs.
Proof.
  intros H. destruct H.
  - apply appendRune_ascii; assumption.
  - apply appendRune_2; assumption.
  - apply appendRune_3; assumption.
  - apply appendRune_4; assumption.
Qed.

Lemma encodes_runes (r : rune) (bs : string) :
  encodes r bs -> forall rest, runes (bs ++ rest) = r :: runes rest.
Proof.
  intros H rest. destruct H.
  - apply runes_ascii; assumption.
  - change (runes (String a0 (String a1 rest)) = rune2 (byteZ a0) (byteZ a1) :: runes rest).
    rewrite (runes_multi a0 _ _ _ ltac:(lia) (decoderune_2 a0 a1 rest ltac:(lia) ltac:(lia))).
    reflexivity.
  - change (runes (String a0 (String a1 (String a2 rest)))
            = rune3 (byteZ a0) (byteZ a1) (byteZ a2) :: runes rest).
    rewrite (runes_multi a0 _ _ _ ltac:(lia) (decoderune_3 a0 a1 a2 rest H H0 H1 H2 H3)).
    reflexivity.
  - change (runes (String a0 (String a1 (String a2 (String a3 rest))))
            = rune4 (byteZ a0) (byteZ a1) (byteZ a2) (byteZ a3) :: runes rest).
    rewrite (runes_multi a0 _ _ _ ltac:(lia)
               (decoderune_4 a0 a1 a2 a3 rest H H0 H1 H2 H3 H4)).
    reflexivity.
Qed.

Lemma encodes_scalar (r : rune) (bs : string) : encodes r bs -> isScalar r = true.
Proof.
  intros H. unfold isScalar, maxRune, surrogateMin, surrogateMax.
  destruct H.
  - pose proof (byteZ_range a). bsolve.
  - unfold rune2. bsolve.
  - unfold rune3. bsolve.
  - unfold rune4. bsolve.
Qed.

Lemma encodes_valid (r : rune) (bs : string) :
  encodes r bs -> forall rest, validUTF8 (bs ++ rest) = validUTF8 rest.
Proof.
  intros H rest. destruct H.
  - change (validUTF8 (String a rest) = validUTF8 rest). cbn [validUTF8].
    assert (E : (byteZ a <=? 127) = true) by bsolve. rewrite E. reflexivity.
  - change (validUTF8 (String a0 (String a1 rest)) = validUTF8 rest). cbn [validUTF8].
    assert (E : (byteZ a0 <=? 127) = false) by bsolve. rewrite E.
    assert (E1 : between 194 223 (byteZ a0) = true) by (unfold between; bsolve).
    assert (E2 : between 128 191 (byteZ a1) = true) by (unfold between; bsolve).
    rewrite E1, E2. reflexivity.
  - change (validUTF8 (String a0 (String a1 (String a2 rest))) = validUTF8 rest).
    cbn [validUTF8].
    assert (E : (byteZ a0 <=? 127) = false) by bsolve. rewrite E.
    assert (E1 : between 194 223 (byteZ a0) = false) by (unfold between; bsolve).
    assert (E2 : between 224 239 (byteZ a0) = true) by (unfold between; bsolve).
    assert (E3 : between 128 191 (byteZ a2) = true) by (unfold between; bsolve).
    assert (E4 : (if byteZ a0 =? 224 then between 160 191 (byteZ a1)
                  else if byteZ a0 =? 237 then between 128 159 (byteZ a1)
                  else between 128 191 (byteZ a1)) = true).
    { unfold between.
      destruct (Z.eqb_spec (byteZ a0) 224); [|destruct (Z.eqb_spec (byteZ a0) 237)];
        bsolve. }
    rewrite E1, E2, E3, E4. reflexivity.
  - change (validUTF8 (String a0 (String a1 (String a2 (String a3 rest)))) = validUTF8 rest).
    cbn [validUTF8].
    assert (E : (byteZ a0 <=? 127) = false) by bsolve. rewrite E.
    assert (E1 : between 194 223 (byteZ a0) = false) by (unfold between; bsolve).
    assert (E2 : between 224 239 (byteZ a0) = false) by (unfold between; bsolve).
    assert (E3 : between 240 244 (byteZ a0) = true) by (unfold between; bsolve).
    assert (E5 : between 128 191 (byteZ a2) = true) by (unfold between; bsolve).
    assert (E6 : between 128 191 (byteZ a3) = true) by (unfold between; bsolve).
    assert (E4 : (if byteZ a0 =? 240 then between 144 191 (byteZ a1)
                  else if byteZ a0 =? 244 then between 128 143 (byteZ a1)
                  else between 128 191 (byteZ a1)) = true).
    { unfold between.
      destruct (Z.eqb_spec (byteZ a0) 240); [|destruct (Z.eqb_spec (byteZ a0) 244)];
        bsolve. }
    rewrite E1, E2, E3, E4, E5, E6. reflexivity.
Qed.

Lemma byte_exists (x : Z) : 0 <= x < 256 -> exists a, byteZ a = x.
Proof. intros H. exists (byte x). rewrite byteZ_byte. apply Z.mod_small. lia. Qed.

Lemma isScalar_spec (r : rune) :
  isScalar r = true <-> 0 <= r <= 1114111 /\ (r < 55296 \/ 57343 < r).
Proof.
  unfold isScalar, maxRune, surrogateMin, surrogateMax.
  rewrite !andb_true_iff, negb_true_iff, andb_false_iff, !Z.leb_le, !Z.leb_gt. lia.
Qed.

Lemma scalar_encodes (r : rune) : isScalar r = true -> exists bs, encodes r bs.
Proof.
  intros H. apply isScalar_spec in H. destruct H as [H0 Hs].
  destruct (Z.lt_ge_cases r 128) as [L1|L1].
  { destruct (byte_exists r) as [a Ha]; [lia|]. subst r. eexists. apply encodes1. lia. }
  destruct (Z.lt_ge_cases r 2048) as [L2|L2].
  { destruct (byte_exists (192 + r / 64)) as [a0 E0]; [dm|].
    destruct (byte_exists (128 + r mod 64)) as [a1 E1]; [dm|].
    assert (E : r = rune2 (byteZ a0) (byteZ a1)) by (unfold rune2; rewrite E0, E1; dm).
    rewrite E. eexists. apply encodes2; rewrite ?E0, ?E1; dm. }
  destruct (Z.lt_ge_cases r 65536) as [L3|L3].
  { destruct (byte_exists (224 + r / 4096)) as [a0 E0]; [dm|].
    destruct (byte_exists (128 + (r / 64) mod 64)) as [a1 E1]; [dm|].
    destruct (byte_exists (128 + r mod 64)) as [a2 E2]; [dm|].
    assert (E : r = rune3 (byteZ a0) (byteZ a1) (byteZ a2))
      by (unfold rune3; rewrite E0, E1, E2; dm).
    rewrite E. eexists. apply encodes3; rewrite ?E0, ?E1, ?E2; dm. }
  destruct (byte_exists (240 + r / 262144)) as [a0 E0]; [dm|].
  destruct (byte_exists (128 + (r / 4096) mod 64)) as [a1 E1]; [dm|].
  destruct (byte_exists (128 + (r / 64) mod 64)) as [a2 E2]; [dm|].
  destruct (byte_exists (128 + r mod 64)) as [a3 E3]; [dm|].
  assert (E : r = rune4 (byteZ a0) (byteZ a1) (byteZ a2) (byteZ a3))
    by (unfold rune4; rewrite E0, E1, E2, E3; dm).
  rewrite E. eexists. apply encodes4; rewrite ?E0, ?E1, ?E2, ?E3; dm.
Qed.

Lemma decoderune_cases (s : string) (r : rune) (w : nat) :
  decoderune s = (r, w) ->
  (r = runeError /\ w = 1%nat) \/ (128 <= r /\ isScalar r = true /\ (2 <= w <= 4)%nat).
Proof.
  unfold decoderune. destruct s as [|a0 r0]; [intros [= <- <-]; left; split; reflexivity|].
  cbv zeta. pose proof (byteZ_range a0) as R0.
  destruct ((t2 <=? byteZ a0) && (byteZ a0 <? t3)) eqn:E2.
  { destruct r0 as [|a1 r1]; [intros [= <- <-]; auto|].
    destruct (iscont (byteZ a1)) eqn:C1; [|intros [= <- <-]; auto].
    unfold t2, t3 in E2. unfold iscont, locb, hicb in C1. bprop E2. bprop C1.
    rewrite decode2 by lia.
    destruct (rune1Max <? _) eqn:E; intros [= <- <-]; [right|left; auto].
    unfold rune1Max in E. apply Z.ltb_lt in E.
    split; [lia|]. split; [apply isScalar_spec|]; lia. }
  destruct ((t3 <=? byteZ a0) && (byteZ a0 <? t4)) eqn:E3.
  { destruct r0 as [|a1 [|a2 r2]]; try (intros [= <- <-]; auto; fail).
    destruct (iscont (byteZ a1) && iscont (byteZ a2)) eqn:C; [|intros [= <- <-]; auto].
    unfold t3, t4 in E3. unfold iscont, locb, hicb in C. bprop E3. bprop C.
    rewrite decode3 by lia.
    destruct ((rune2Max <? _) && negb _) eqn:E; intros [= <- <-]; [right|left; auto].
    unfold rune2Max, surrogateMin, surrogateMax in E.
    rewrite andb_true_iff, negb_true_iff, andb_false_iff, Z.ltb_lt, !Z.leb_gt in E.
    split; [lia|]. split; [apply isScalar_spec|]; lia. }
  destruct ((t4 <=? byteZ a0) && (byteZ a0 <? t5)) eqn:E4.
  { destruct r0 as [|a1 [|a2 [|a3 r3]]]; try (intros [= <- <-]; auto; fail).
    destruct (iscont (byteZ a1) && iscont (byteZ a2) && iscont (byteZ a3)) eqn:C;
      [|intros [= <- <-]; auto].
    unfold t4, t5 in E4. unfold iscont, locb, hicb in C. bprop E4. bprop C.
    rewrite decode4 by lia.
    destruct ((rune3Max <? _) && (_ <=? maxRune)) eqn:E; intros [= <- <-]; [right|left; auto].
    unfold rune3Max, maxRune in E. rewrite andb_true_iff, Z.ltb_lt, Z.leb_le in E.
    split; [lia|]. split; [apply isScalar_spec|]; lia. }
  intros [= <- <-]; auto.
Qed.

Lemma range_from_scalar (s : string) :
  forall k, Forall (fun r => isScalar r = true) (range_from k s).
Proof.
  induction s as [|a rest IH]; intros k; [constructor|].
  destruct k as [|k]; [|apply IH].
  rewrite range_from_cons. pose proof (byteZ_range a) as R.
  destruct (byteZ a <? runeSelf) eqn:E.
  - constructor; [|apply IH]. apply isScalar_spec. unfold runeSelf in E.
    apply Z.ltb_lt in E. lia.
  - destruct (decoderune (String a rest)) as [r w] eqn:D. constructor; [|apply IH].
    destruct (decoderune_cases _ _ _ D) as [[-> _]|(_ & Hs & _)]; [reflexivity | exact Hs].
Qed.


Lemma valid_decompose (s : string) :
  validUTF8 s = true -> s <> EmptyString ->
  exists r bs rest, s = (bs ++ rest)%string /\ encodes r bs /\ validUTF8 rest = true.
Proof.
  intros H Hne.
  destruct (valid_head s H Hne) as (r & bs & rest & Es & Er & Ea & Hv & _ & _).
  exists r, bs, rest. split; [exact Es|]. split; [|exact Hv].
  assert (Hs : isScalar r = true).
  { pose proof (range_from_scalar s 0%nat) as F. fold (runes s) in F.
    rewrite Er in F. inversion F. assumption. }
  destruct (scalar_encodes r Hs) as [bs' Hb].
  rewrite <- Ea, (encodes_appendRune _ _ Hb). exact Hb.
Qed.

Lemma encodes_length (r : rune) (bs : string) : encodes r bs -> (0 < String.length bs)%nat.
Proof. intros H. destruct H; simpl; lia. Qed.

Lemma strlen_app (s1 s2 : string) :
  String.length (s1 ++ s2) = (String.length s1 + String.length s2)%nat.
Proof. induction s1 as [|a s1 IH]; simpl; [reflexivity | rewrite IH; reflexivity]. Qed.

Lemma validUTF8_app_n (n : nat) :
  forall s1 s2, (String.length s1 <= n)%nat -> validUTF8 s1 = true ->
    validUTF8 (s1 ++ s2) = validUTF8 s2.
Proof.
  induction n as [|n IH]; intros s1 s2 Hlen Hv.
  - destruct s1; [reflexivity | simpl in Hlen; lia].
  - destruct s1 as [|a s]; [reflexivity|].
    destruct (valid_decompose (String a s) Hv ltac:(discriminate))
      as (r & bs & rest & Es & He & Hr).
    rewrite Es, append_assoc, (encodes_valid _ _ He).
    apply IH; [|exact Hr].
    pose proof (encodes_length _ _ He). rewrite Es, strlen_app in Hlen. lia.
Qed.

Lemma validUTF8_app (s1 s2 : string) :
  validUTF8 s1 = true -> validUTF8 s2 = true -> validUTF8 (s1 ++ s2) = true.
Proof.
  intros H1 H2. rewrite (validUTF8_app_n (String.length s1)); [exact H2 | lia | exact H1].
Qed.

Lemma runes_app_n (n : nat) :
  forall s1 s2, (String.length s1 <= n)%nat -> validUTF8 s1 = true ->
    runes (s1 ++ s2) = (runes s1 ++ runes s2)%list.
Proof.
  induction n as [|n IH]; intros s1 s2 Hlen Hv.
  - destruct s1; [reflexivity | simpl in Hlen; lia].
  - destruct s1 as [|a s]; [reflexivity|].
    destruct (valid_decompose (String a s) Hv ltac:(discriminate))
      as (r & bs & rest & Es & He & Hr).
    rewrite Es, append_assoc, !(encodes_runes _ _ He).
    rewrite (IH rest s2); [reflexivity | | exact Hr].
    pose proof (encodes_length _ _ He). rewrite Es, strlen_app in Hlen. lia.
Qed.

(** What [range] reads from a well-formed text does not depend on what
    follows it. *)
Lemma runes_app (s1 s2 : string) (Hvalid : validUTF8 s1 = true) :
  runes (s1 ++ s2) = (runes s1 ++ runes s2)%list.
Proof. apply (runes_app_n (String.length s1)); [lia | exact Hvalid]. Qed.

Lemma concatAll_app (l1 l2 : list string) :
  concatAll (l1 ++ l2) = (concatAll l1 ++ concatAll l2)%string.
Proof.
  induction l1 as [|x l1 IH]; simpl; [reflexivity|].
  rewrite IH, append_assoc. reflexivity.
Qed.

Lemma reencode_valid_n (n : nat) :
  forall s, (String.length s <= n)%nat -> validUTF8 s = true ->
    concatAll (map appendRune (runes s)) = s.
Proof.
  induction n as [|n IH]; intros s Hlen Hv.
  - destruct s; [reflexivity | simpl in Hlen; lia].
  - destruct s as [|a s']; [reflexivity|].
    destruct (valid_decompose (String a s') Hv ltac:(discriminate))
      as (r & bs & rest & Es & He & Hr).
    rewrite Es, (encodes_runes _ _ He). simpl.
    rewrite (encodes_appendRune _ _ He), (IH rest); [reflexivity | | exact Hr].
    pose proof (encodes_length _ _ He). rewrite Es, strlen_app in Hlen. lia.
Qed.

(** X12.  Reading a well-formed text with [range] and writing the runes
    with [WriteRune] gives the text back: the parser passes well-formed
    text on byte for byte. *)
Theorem decode_encode (s : string) (Hvalid : validUTF8 s = true) :
  concatAll (map appendRune (runes s)) = s.
Proof. apply (reencode_valid_n (String.length s)); [lia | exact Hvalid]. Qed.

Lemma decode_encode_witness :
  concatAll (map appendRune (runes (String "195"%char (String "169"%char "!"))))
  = String "195"%char (String "169"%char "!").
Proof.
  apply (decode_encode (String "195"%char (String "169"%char "!"))). reflexivity.
Defined.

(** X13.  What [WriteRune] writes for a scalar value is well-formed UTF-8
    that [range] reads back as that value. *)
Theorem encode_decode (r : rune) (Hr : isScalar r = true) :
  runes (appendRune r) = [r] /\ validUTF8 (appendRune r) = true.
Proof.
  destruct (scalar_encodes r Hr) as [bs He].
  rewrite (encodes_appendRune _ _ He).
  pose proof (encodes_runes _ _ He EmptyString) as E1.
  pose proof (encodes_valid _ _ He EmptyString) as E2.
  rewrite append_empty_r in E1, E2. split; [exact E1 | exact E2].
Qed.

Lemma encode_decode_witness :
  runes (appendRune 8364) = [8364] /\ validUTF8 (appendRune 8364) = true.
Proof. apply (encode_decode 8364). reflexivity. Defined.

(** ** Invariants of the loop *)

Lemma parseLoop_inv (I : parser -> Prop) (R : rune -> Prop) :
  (forall st c p, R c -> I p -> I (fst (callState st c p))) ->
  (forall p v, I p -> I (set_state p v)) ->
  forall rs st p, Forall R rs -> I p -> I (fst (parseLoop rs st p)).
Proof.
  intros Hc Hs. induction rs as [|c rest IH]; intros st p HR HI; simpl; [exact HI|].
  inversion HR as [|? ? Rc Rrest]; subst.
  pose proof (Hc st c p Rc HI) as H1.
  destruct (callState st c p) as [p1 [next|e]]; simpl in *.
  - apply IH; [exact Rrest | apply Hs; exact H1].
  - apply Hs. exact H1.
Qed.

(** What [parse] returns: nothing for the empty input; else the runs of a
    state [p] that the loop reaches, after an error, or those and the run of
    the text buffer. *)
Lemma parse_reaches (I : parser -> Prop) :
  I startParser ->
  (forall st c p, isScalar c = true -> I p -> I (fst (callState st c p))) ->
  (forall p v, I p -> I (set_state p v)) ->
  forall input,
    parse input = ([], None) \/
    exists p, I p /\
      ((exists e, parse input = (p_ts p, Some e)) \/
       parse input = ((p_ts p ++ [runOf p])%list, None)).
Proof.
  intros H0 Hc Hs input. destruct input as [|a s]; [left; reflexivity|]. right.
  rewrite parse_parser_parse by discriminate. unfold parser_parse.
  change (set_state (set_ts zeroParser []) (Some statePlain)) with startParser.
  pose proof (parseLoop_inv I (fun c => isScalar c = true) Hc Hs
                (runes (String a s)) statePlain startParser
                (range_from_scalar _ 0%nat) H0) as HI.
  destruct (parseLoop (runes (String a s)) statePlain startParser) as [p [e|]];
    simpl in *; exists p; (split; [exact HI|]).
  - left. exists e. reflexivity.
  - right. reflexivity.
Qed.

(** Runs with non-empty text. *)
Lemma callState_nonempty (st : parseState) (c : rune) (p : parser) :
  Forall (fun t => text_text t <> EmptyString) (p_ts p) ->
  Forall (fun t => text_text t <> EmptyString) (p_ts (fst (callState st c p))).
Proof.
  intros H. destruct st; simpl.
  - unfold parsePlain. destruct (c =? 27); [|exact H].
    destruct (0 <? String.length (p_b p))%nat eqn:E; [|exact H].
    simpl. apply Forall_app. split; [exact H|]. constructor; [|constructor].
    simpl. intros Hb. rewrite Hb in E. discriminate E.
  - unfold parseESC. destruct (c =? 91); exact H.
  - rewrite (proj1 (parseCSI_frame c p)). exact H.
Qed.

Lemma removelast_snoc {A : Type} (l : list A) (x : A) : removelast (l ++ [x]) = l.
Proof. rewrite removelast_app by discriminate. simpl. apply app_nil_r. Qed.

(** X14.  Only the last run of a result can have an empty text, and no run
    of a failed parse has one: the loop flushes a run only when the text
    buffer holds something. *)
Theorem runs_nonempty (input : string) :
  Forall (fun t => text_text t <> EmptyString) (removelast (fst (parse input))) /\
  (snd (parse input) <> None ->
   Forall (fun t => text_text t <> EmptyString) (fst (parse input))).
Proof.
  destruct (parse_reaches (fun p => Forall (fun t => text_text t <> EmptyString) (p_ts p))
              (Forall_nil _)
              (fun st c p _ H => callState_nonempty st c p H)
              (fun p v H => H) input) as [E|(p & HI & [[e E]|E])]; rewrite E; simpl.
  - split; [constructor | intros H; contradiction].
  - split; [|intros _; exact HI].
    clear E. induction (p_ts p) as [|t [|t' l] IH]; simpl; [constructor | constructor |].
    inversion HI; subst. constructor; [assumption | apply IH; assumption].
  - split; [|intros H; contradiction]. rewrite removelast_snoc. exact HI.
Qed.

(** ** Colours of the runs *)

Lemma index_colour (tbl : list string) (i : Z) :
  forallb isColour tbl = true -> isColour (index tbl i) = true.
Proof.
  intros H. unfold index. destruct (i <? 0); [reflexivity|].
  generalize (Z.to_nat i). induction tbl as [|x tbl IH]; intros n.
  - destruct n; reflexivity.
  - simpl in H. apply andb_true_iff in H. destruct H as [Hx Ht].
    destruct n as [|n]; simpl; [exact Hx | apply IH; exact Ht].
Qed.

Lemma color8bit_colour (N : Z) : isColour (color8bit N) = true.
Proof.
  destruct (Z.lt_ge_cases N 0) as [L|L]; [rewrite color8bit_other by lia; reflexivity|].
  destruct (Z.lt_ge_cases 255 N) as [G|G]; [rewrite color8bit_other by lia; reflexivity|].
  apply (forall_range (fun k => isColour (color8bit k)) 0 256);
    [vm_compute; reflexivity | lia].
Qed.

Lemma sgrLoop_colours (n : nat) :
  forall codes p p' r, (List.length codes <= n)%nat -> sgrLoop codes p = (p', r) ->
    isColour (p_bg p) = true -> isColour (p_fg p) = true ->
    isColour (p_bg p') = true /\ isColour (p_fg p') = true.
Proof.
  induction n as [|n IH]; intros codes p p' r Hlen H Hbg Hfg.
  - destruct codes; [|simpl in Hlen; lia]. injection H as <- <-. split; assumption.
  - destruct codes as [|c rest]; [injection H as <- <-; split; assumption|].
    simpl in Hlen. unfold sgrLoop in H; fold sgrLoop in H.
    repeat match type of H with
    | (if ?b then _ else _) = _ => destruct b
    | (match ?l with [] => _ | _ :: _ => _ end) = _ => destruct l; simpl in Hlen
    | (_, Some _) = (_, _) => injection H as <- <-; split; assumption
    | sgrLoop ?l ?q = _ =>
        let F := fresh in
        assert (F : (List.length l <= n)%nat) by (simpl; lia);
        apply (IH _ _ _ _ F H); simpl;
        first [ assumption | reflexivity | apply color8bit_colour
              | apply index_colour; reflexivity ]
    end.
Qed.

Lemma callState_colours (st : parseState) (c : rune) (p : parser) :
  isColour (p_bg p) = true /\ isColour (p_fg p) = true /\
  Forall (fun t => colouredRun t = true) (p_ts p) ->
  let q := fst (callState st c p) in
  isColour (p_bg q) = true /\ isColour (p_fg q) = true /\
  Forall (fun t => colouredRun t = true) (p_ts q).
Proof.
  intros (Hbg & Hfg & Hts). destruct st; simpl.
  - unfold parsePlain. destruct (c =? 27); [|simpl; auto].
    destruct (0 <? String.length (p_b p))%nat; simpl; [|auto].
    split; [exact Hbg|]. split; [exact Hfg|].
    apply Forall_app. split; [exact Hts|]. constructor; [|constructor].
    unfold colouredRun. simpl. rewrite Hbg, Hfg. reflexivity.
  - unfold parseESC. destruct (c =? 91); simpl; auto.
  - unfold parseCSI. destruct (c =? 109); [|simpl; auto].
    destruct (atoiAll (Split (p_c p))) as [codes|e]; [|simpl; auto].
    destruct (sgrLoop codes (set_c p EmptyString)) as [p3 r] eqn:E.
    destruct (sgrLoop_frame _ _ _ _ _ (Nat.le_refl _) E) as (_ & Ets & _ & _).
    destruct (sgrLoop_colours _ _ _ _ _ (Nat.le_refl _) E Hbg Hfg) as [B F].
    assert (G : isColour (p_bg p3) = true /\ isColour (p_fg p3) = true /\
                Forall (fun t => colouredRun t = true) (p_ts p3)).
    { rewrite Ets. auto. }
    destruct r; simpl; exact G.
Qed.

Lemma run_colours_aux (input : string) :
  Forall (fun t => colouredRun t = true) (fst (parse input)).
Proof.
  destruct (parse_reaches
              (fun p => isColour (p_bg p) = true /\ isColour (p_fg p) = true /\
                        Forall (fun t => colouredRun t = true) (p_ts p))
              (conj eq_refl (conj eq_refl (Forall_nil _)))
              (fun st c p _ H => callState_colours st c p H)
              (fun p v H => H) input) as [E|(p & (Hbg & Hfg & Hts) & [[e E]|E])];
    rewrite E; simpl.
  - constructor.
  - exact Hts.
  - apply Forall_app. split; [exact Hts|]. constructor; [|constructor].
    unfold colouredRun, runOf. simpl. rewrite Hbg, Hfg. reflexivity.
Qed.

(** X15.  The colours of every run that [parse] returns are empty or [#]
    and six lower-case hexadecimal digits, whatever the input and whether
    the parse fails or not. *)
Theorem run_colours (input : string) :
  Forall (fun t => isColour (text_bg t) = true /\ isColour (text_fg t) = true)
         (fst (parse input)).
Proof.
  apply (Forall_impl _ (P := fun t => colouredRun t = true)); [|apply run_colours_aux].
  intros t Ht. unfold colouredRun in Ht. apply andb_true_iff in Ht. exact Ht.
Qed.

(** ** The text of the runs *)

Section TextInvariant.
Variable P : string -> Prop.
Hypothesis P_empty : P EmptyString.
Hypothesis P_write :
  forall s c, P s -> isScalar c = true -> c <> 27 -> P (WriteRune s c).

Lemma callState_text (st : parseState) (c : rune) (p : parser) :
  isScalar c = true ->
  P (p_b p) /\ Forall (fun t => P (text_text t)) (p_ts p) ->
  P (p_b (fst (callState st c p))) /\
  Forall (fun t => P (text_text t)) (p_ts (fst (callState st c p))).
Proof.
  intros Hc (Hb & Hts). destruct st; simpl.
  - unfold parsePlain. destruct (Z.eqb_spec c 27) as [E|E].
    + destruct (0 <? String.length (p_b p))%nat; simpl; [|auto].
      split; [exact P_empty|]. apply Forall_app. split; [exact Hts|].
      constructor; [exact Hb | constructor].
    + simpl. split; [apply P_write; assumption | exact Hts].
  - unfold parseESC. destruct (c =? 91); simpl; auto.
  - destruct (parseCSI_frame c p) as [E1 E2]. rewrite E1, E2. auto.
Qed.

Lemma parse_text (input : string) :
  Forall (fun t => P (text_text t)) (fst (parse input)).
Proof.
  destruct (parse_reaches
              (fun p => P (p_b p) /\ Forall (fun t => P (text_text t)) (p_ts p))
              (conj P_empty (Forall_nil _))
              callState_text
              (fun p v H => H) input) as [E|(p & (Hb & Hts) & [[e E]|E])];
    rewrite E; simpl.
  - constructor.
  - exact Hts.
  - apply Forall_app. split; [exact Hts|]. constructor; [exact Hb | constructor].
Qed.
End TextInvariant.

Lemma encodes_noEsc (r : rune) (bs : string) :
  encodes r bs -> r <> 27 -> noEsc bs = true.
Proof.
  intros H Hr. destruct H.
  - simpl. rewrite eqb_byteZ. change (byteZ esc) with 27.
    destruct (Z.eqb_spec (byteZ a) 27); [contradiction | reflexivity].
  - apply noEsc_high. simpl. rewrite !andb_true_iff, !Z.leb_le. lia.
  - apply noEsc_high. simpl. rewrite !andb_true_iff, !Z.leb_le. lia.
  - apply noEsc_high. simpl. rewrite !andb_true_iff, !Z.leb_le. lia.
Qed.

Lemma WriteRune_noEsc (s : string) (c : rune) :
  noEsc s = true -> isScalar c = true -> c <> 27 -> noEsc (WriteRune s c) = true.
Proof.
  intros Hs Hc Hne. unfold WriteRune. rewrite noEsc_app, Hs. simpl.
  destruct (scalar_encodes c Hc) as [bs He].
  rewrite (encodes_appendRune _ _ He). exact (encodes_noEsc _ _ He Hne).
Qed.

Lemma WriteRune_valid (s : string) (c : rune) :
  validUTF8 s = true -> isScalar c = true -> c <> 27 -> validUTF8 (WriteRune s c) = true.
Proof.
  intros Hs Hc _. unfold WriteRune. apply validUTF8_app; [exact Hs|].
  destruct (scalar_encodes c Hc) as [bs He].
  rewrite (encodes_appendRune _ _ He).
  pose proof (encodes_valid _ _ He EmptyString) as E. rewrite append_empty_r in E.
  exact E.
Qed.

(** X16.  No run that [parse] returns holds the escape byte, whatever the
    input. *)
Theorem runs_no_escape_byte (input : string) :
  Forall (fun t => noEsc (text_text t) = true) (fst (parse input)).
Proof.
  apply (parse_text (fun s => noEsc s = true)); [reflexivity | exact WriteRune_noEsc].
Qed.

(** X17.  The text of every run that [parse] returns is well-formed UTF-8,
    whatever the bytes of the input. *)
Theorem runs_valid_utf8 (input : string) :
  Forall (fun t => validUTF8 (text_text t) = true) (fst (parse input)).
Proof.
  apply (parse_text (fun s => validUTF8 s = true)); [reflexivity | exact WriteRune_valid].
Qed.

(** ** The HTML of the runs *)

Lemma allBytes_app (P : ascii -> bool) (s1 s2 : string) :
  allBytes P (s1 ++ s2) = allBytes P s1 && allBytes P s2.
Proof.
  induction s1 as [|a s1 IH]; simpl; [reflexivity|].
  rewrite IH. apply andb_assoc.
Qed.

Lemma allBytes_impl (P Q : ascii -> bool) (s : string) :
  (forall a, P a = true -> Q a = true) -> allBytes P s = true -> allBytes Q s = true.
Proof.
  intros HPQ. induction s as [|a s IH]; simpl; [reflexivity|].
  intros H. apply andb_true_iff in H. destruct H as [Ha Hs].
  rewrite (HPQ a Ha), (IH Hs). reflexivity.
Qed.

Lemma isHexByte_plain (a : ascii) : isHexByte a = true -> plainByte a = true.
Proof.
  unfold isHexByte, plainByte, printable, reserved, between, dquote.
  rewrite !eqb_byteZ. change (byteZ "&") with 38. change (byteZ "'") with 39.
  change (byteZ "<") with 60. change (byteZ ">") with 62.
  change (byteZ "034") with 34.
  intros H. apply orb_true_iff in H.
  rewrite !andb_true_iff, !Z.leb_le in H.
  assert (R : 48 <= byteZ a <= 102) by lia.
  assert (E : ((32 <=? byteZ a) && (byteZ a <? 127)) = true) by bsolve.
  rewrite E.
  destruct (Z.eqb_spec (byteZ a) 38); [lia|]. destruct (Z.eqb_spec (byteZ a) 39); [lia|].
  destruct (Z.eqb_spec (byteZ a) 60); [lia|]. destruct (Z.eqb_spec (byteZ a) 62); [lia|].
  destruct (Z.eqb_spec (byteZ a) 34); [lia|]. reflexivity.
Qed.

Lemma isColour_plain (s : string) : isColour s = true -> allBytes plainByte s = true.
Proof.
  destruct s as [|h digits]; [reflexivity|]. simpl. intros H.
  apply andb_true_iff in H. destruct H as [H Hd].
  apply andb_true_iff in H. destruct H as [Hh _].
  apply Ascii.eqb_eq in Hh. subst h.
  rewrite (allBytes_impl _ _ _ isHexByte_plain Hd). reflexivity.
Qed.

Lemma styleDecls_plain (t : text) :
  colouredRun t = true -> allBytes plainByte (Join (styleDecls t) "; ") = true.
Proof.
  unfold colouredRun, styleDecls. intros H. apply andb_true_iff in H.
  destruct H as [Hbg Hfg]. apply isColour_plain in Hbg, Hfg.
  destruct (String.eqb (text_bg t) EmptyString), (String.eqb (text_fg t) EmptyString),
           (text_bold t); cbn [List.app Join];
    rewrite ?allBytes_app, ?Hbg, ?Hfg; reflexivity.
Qed.

(** X18.  The HTML of every run that [parse] returns is the escaped text,
    or a [span] around it whose style attribute is made of printable ASCII
    bytes none of which is reserved in HTML: no input can end the attribute
    or the tag early. *)
Theorem html_style_attribute (input : string) :
  Forall (fun t =>
            toHTML t = EscapeString (text_text t) \/
            exists style, allBytes plainByte style = true /\
                          toHTML t = span style (EscapeString (text_text t)))
         (fst (parse input)).
Proof.
  apply (Forall_impl _ (P := fun t => colouredRun t = true)); [|apply run_colours_aux].
  intros t Ht. rewrite toHTML_styleDecls. destruct (defaultStyle t); [left; reflexivity|].
  right. exists (Join (styleDecls t) "; "). split; [apply styleDecls_plain; exact Ht|].
  reflexivity.
Qed.

Lemma printable_range (a : ascii) : printable a = true -> 32 <= byteZ a < 127.
Proof.
  unfold printable. rewrite andb_true_iff, Z.leb_le, Z.ltb_lt. lia.
Qed.

Lemma printable_noEsc (s : string) : allBytes printable s = true -> noEsc s = true.
Proof.
  induction s as [|a s IH]; simpl; [reflexivity|]. intros H.
  apply andb_true_iff in H. destruct H as [Ha Hs]. apply printable_range in Ha.
  rewrite eqb_byteZ. change (byteZ esc) with 27.
  destruct (Z.eqb_spec (byteZ a) 27); [lia|]. simpl. apply IH. exact Hs.
Qed.

Lemma printable_valid_app (s rest : string) :
  allBytes printable s = true -> validUTF8 (s ++ rest) = validUTF8 rest.
Proof.
  induction s as [|a s IH]; [reflexivity|]. intros H. simpl in H.
  apply andb_true_iff in H. destruct H as [Ha Hs]. apply printable_range in Ha.
  change (validUTF8 (String a (s ++ rest)) = validUTF8 rest). cbn [validUTF8].
  assert (E : (byteZ a <=? 127) = true) by bsolve. rewrite E. apply IH. exact Hs.
Qed.

Lemma printable_valid (s : string) : allBytes printable s = true -> validUTF8 s = true.
Proof.
  intros H. rewrite <- (append_empty_r s), (printable_valid_app _ _ H). reflexivity.
Qed.

Lemma plain_printable (s : string) : allBytes plainByte s = true -> allBytes printable s = true.
Proof.
  apply allBytes_impl. intros a H. unfold plainByte in H. apply andb_true_iff in H. tauto.
Qed.

Lemma reserved_byte (a : ascii) :
  reserved a = true -> (a = "&" \/ a = "'" \/ a = "<" \/ a = ">" \/ a = dquote)%char.
Proof.
  unfold reserved. rewrite !orb_true_iff, !Ascii.eqb_eq. tauto.
Qed.

Lemma escapeByte_printable (a : ascii) :
  reserved a = true -> allBytes printable (escapeByte a) = true.
Proof.
  intros H. destruct (reserved_byte a H) as [->|[->|[->|[->| ->]]]]; reflexivity.
Qed.

Lemma EscapeString_app (s1 s2 : string) :
  EscapeString (s1 ++ s2) = (EscapeString s1 ++ EscapeString s2)%string.
Proof.
  induction s1 as [|a s1 IH]; simpl; [reflexivity|].
  rewrite IH, append_assoc. reflexivity.
Qed.

Lemma EscapeString_noEsc (s : string) : noEsc s = true -> noEsc (EscapeString s) = true.
Proof.
  induction s as [|a s IH]; simpl; [reflexivity|]. intros H.
  apply andb_true_iff in H. destruct H as [Ha Hs].
  rewrite noEsc_app, (IH Hs), andb_true_r.
  destruct (reserved a) eqn:R.
  - apply printable_noEsc, escapeByte_printable. exact R.
  - rewrite (escapeByte_other a R). simpl. rewrite Ha. reflexivity.
Qed.

Lemma high_not_reserved (a : ascii) : 128 <= byteZ a -> reserved a = false.
Proof.
  intros H. destruct (reserved a) eqn:R; [|reflexivity].
  destruct (reserved_byte a R) as [->|[->|[->|[->| ->]]]]; vm_compute in H;
    exfalso; apply H; reflexivity.
Qed.

Lemma EscapeString_high (bs : string) : highBytes bs = true -> EscapeString bs = bs.
Proof.
  induction bs as [|a bs IH]; simpl; [reflexivity|]. intros H.
  apply andb_true_iff in H. destruct H as [Ha Hs]. apply Z.leb_le in Ha.
  rewrite (escapeByte_other a (high_not_reserved a Ha)), (IH Hs). reflexivity.
Qed.

(** What [html.EscapeString] makes of one character keeps the text behind
    it well-formed. *)
Lemma EscapeString_encodes (r : rune) (bs rest : string) :
  encodes r bs -> validUTF8 (EscapeString bs ++ rest) = validUTF8 rest.
Proof.
  intros H. destruct H as [a Ha | a0 a1 | a0 a1 a2 | a0 a1 a2 a3].
  - simpl. rewrite append_empty_r. destruct (reserved a) eqn:R.
    + apply printable_valid_app, escapeByte_printable. exact R.
    + rewrite (escapeByte_other a R). apply (encodes_valid _ _ (encodes1 a Ha)).
  - rewrite EscapeString_high
      by (simpl; rewrite !andb_true_iff, !Z.leb_le; lia).
    apply (encodes_valid _ _ (encodes2 a0 a1 ltac:(assumption) ltac:(assumption))).
  - rewrite EscapeString_high
      by (simpl; rewrite !andb_true_iff, !Z.leb_le; lia).
    apply (encodes_valid _ _ (encodes3 a0 a1 a2 ltac:(assumption) ltac:(assumption)
                                ltac:(assumption) ltac:(assumption) ltac:(assumption))).
  - rewrite EscapeString_high
      by (simpl; rewrite !andb_true_iff, !Z.leb_le; lia).
    apply (encodes_valid _ _ (encodes4 a0 a1 a2 a3 ltac:(assumption) ltac:(assumption)
                                ltac:(assumption) ltac:(assumption) ltac:(assumption)
                                ltac:(assumption))).
Qed.

Lemma EscapeString_valid_n (n : nat) :
  forall s, (String.length s <= n)%nat -> validUTF8 s = true ->
    validUTF8 (EscapeString s) = true.
Proof.
  induction n as [|n IH]; intros s Hlen Hv.
  - destruct s; [reflexivity | simpl in Hlen; lia].
  - destruct s as [|a s']; [reflexivity|].
    destruct (valid_decompose (String a s') Hv ltac:(discriminate))
      as (r & bs & rest & Es & He & Hr).
    rewrite Es, EscapeString_app, (EscapeString_encodes _ _ _ He).
    apply IH; [|exact Hr].
    pose proof (encodes_length _ _ He). rewrite Es, strlen_app in Hlen. lia.
Qed.

Lemma EscapeString_valid (s : string) :
  validUTF8 s = true -> validUTF8 (EscapeString s) = true.
Proof. apply (EscapeString_valid_n (String.length s)). lia. Qed.

(** The HTML of one run, for a property of texts that the markup has and
    that concatenation and escaping keep. *)
Section Markup.
Variable P : string -> Prop.
Hypothesis P_empty : P EmptyString.
Hypothesis P_app : forall s1 s2, P s1 -> P s2 -> P (s1 ++ s2)%string.
Hypothesis P_printable : forall s, allBytes printable s = true -> P s.
Hypothesis P_escape : forall s, P s -> P (EscapeString s).

Lemma toHTML_markup (t : text) :
  colouredRun t = true -> P (text_text t) -> P (toHTML t).
Proof.
  intros Hc Ht. rewrite toHTML_styleDecls.
  destruct (defaultStyle t); [apply P_escape; exact Ht|].
  unfold span. apply P_app; [apply P_printable; reflexivity|].
  change (P ((String dquote EmptyString ++ Join (styleDecls t) "; ")
             ++ (String dquote ">" ++ EscapeString (text_text t) ++ "</span>"))%string).
  apply P_app; [apply P_app; [apply P_printable; reflexivity|] |].
  - apply P_printable, plain_printable, styleDecls_plain. exact Hc.
  - apply P_app; [apply P_printable; reflexivity|].
    apply P_app; [apply P_escape; exact Ht | apply P_printable; reflexivity].
Qed.

Lemma concat_markup (ts : list text) :
  Forall (fun t => colouredRun t = true) ts ->
  Forall (fun t => P (text_text t)) ts ->
  P (concatAll (map toHTML ts)).
Proof.
  induction ts as [|t ts IH]; intros Hc Ht; simpl; [exact P_empty|].
  inversion Hc; inversion Ht; subst.
  apply P_app; [apply toHTML_markup; assumption | apply IH; assumption].
Qed.

Lemma parseHTML_markup (bs : string) :
  Forall (fun t => P (text_text t)) (fst (parse bs)) -> P (fst (parseHTML bs)).
Proof.
  destruct bs as [|a s]; [intros _; exact P_empty|].
  pose proof (run_colours_aux (String a s)) as Hc.
  rewrite parse_parser_parse in * by discriminate. unfold parseHTML.
  destruct (parser_parse (String a s) zeroParser) as [p [e|]]; simpl in *;
    intros Ht; [exact P_empty|].
  rewrite Join_empty_sep. apply concat_markup; assumption.
Qed.
End Markup.

(** X19.  The HTML that [parseHTML] returns holds no escape byte, whatever
    the input. *)
Theorem html_no_escape_byte (bs : string) : noEsc (fst (parseHTML bs)) = true.
Proof.
  apply (parseHTML_markup (fun s => noEsc s = true)).
  - reflexivity.
  - intros s1 s2 H1 H2. rewrite noEsc_app, H1, H2. reflexivity.
  - exact printable_noEsc.
  - exact EscapeString_noEsc.
  - apply (parse_text (fun s => noEsc s = true)); [reflexivity | exact WriteRune_noEsc].
Qed.

(** X20.  The HTML that [parseHTML] returns is well-formed UTF-8, whatever
    the bytes of the input. *)
Theorem html_valid_utf8 (bs : string) : validUTF8 (fst (parseHTML bs)) = true.
Proof.
  apply (parseHTML_markup (fun s => validUTF8 s = true)).
  - reflexivity.
  - exact validUTF8_app.
  - exact printable_valid.
  - exact EscapeString_valid.
  - apply (parse_text (fun s => validUTF8 s = true)); [reflexivity | exact WriteRune_valid].
Qed.

(** ** An ASCII byte ends whatever sequence stands before it *)

Lemma decoderune_width (s : string) (r : rune) (w : nat) :
  decoderune s = (r, w) -> s <> EmptyString -> (1 <= w <= String.length s)%nat.
Proof.
  unfold decoderune. destruct s as [|a0 r0]; [intros _ H; contradiction|].
  cbv zeta. intros H _. revert H.
  repeat match goal with
  | |- context [if ?b then _ else _] => destruct b
  | |- context [match ?s with EmptyString => _ | String _ _ => _ end] => destruct s
  end; intros [= <- <-]; simpl; lia.
Qed.

Lemma decoderune_app_ascii (b a : ascii) (s rest : string) :
  byteZ a < 128 ->
  decoderune (String b s ++ String a rest) = decoderune (String b s).
Proof.
  intros Ha.
  assert (Ca : iscont (byteZ a) = false) by (unfold iscont, locb, hicb; bsolve).
  change (String b s ++ String a rest)%string with (String b (s ++ String a rest)).
  unfold decoderune. cbv zeta.
  destruct ((t2 <=? byteZ b) && (byteZ b <? t3)).
  { destruct s as [|a1 r1]; cbn [String.append]; rewrite ?Ca; reflexivity. }
  destruct ((t3 <=? byteZ b) && (byteZ b <? t4)).
  { destruct s as [|a1 [|a2 r2]]; cbn [String.append];
      rewrite ?Ca, ?andb_false_r; cbn [andb];
      repeat match goal with
      | |- context [match ?l with EmptyString => _ | String _ _ => _ end] => destruct l
      end; reflexivity. }
  destruct ((t4 <=? byteZ b) && (byteZ b <? t5)); [|reflexivity].
  destruct s as [|a1 [|a2 [|a3 r3]]]; cbn [String.append];
    rewrite ?Ca, ?andb_false_r; cbn [andb];
    repeat match goal with
    | |- context [match ?l with EmptyString => _ | String _ _ => _ end] => destruct l
    end; reflexivity.
Qed.

Lemma range_from_app_ascii (a : ascii) (rest : string) :
  byteZ a < 128 ->
  forall s k, (k <= String.length s)%nat ->
    range_from k (s ++ String a rest)
    = (range_from k s ++ range_from 0 (String a rest))%list.
Proof.
  intros Ha. induction s as [|b s IH]; intros k Hk.
  - simpl in Hk. assert (k = 0%nat) by lia. subst k. reflexivity.
  - destruct k as [|k].
    + change (String b s ++ String a rest)%string with (String b (s ++ String a rest)).
      rewrite !range_from_cons.
      destruct (byteZ b <? runeSelf).
      * rewrite IH by lia. reflexivity.
      * change (String b (s ++ String a rest)) with (String b s ++ String a rest)%string.
        rewrite (decoderune_app_ascii b a s rest Ha).
        destruct (decoderune (String b s)) as [r w] eqn:D.
        pose proof (decoderune_width _ _ _ D ltac:(discriminate)) as W. simpl in W.
        rewrite IH by lia. reflexivity.
    + simpl in Hk. simpl. apply IH. lia.
Qed.

(** The runes before an ASCII byte do not depend on it, and the runes from
    it on do not depend on what stands before, whatever the bytes. *)
Lemma runes_app_ascii (s : string) (a : ascii) (rest : string)
    (Ha : byteZ a < 128) :
  runes (s ++ String a rest) = (runes s ++ runes (String a rest))%list.
Proof. apply range_from_app_ascii; [exact Ha | lia]. Qed.

Lemma range_from_escapes (s : string) :
  forall k, (count_occ Z.eq_dec (range_from k s) 27%Z <= countByte esc s)%nat.
Proof.
  induction s as [|a rest IH]; intros k; [simpl; lia|].
  destruct k as [|k].
  - rewrite range_from_cons. cbn [countByte]. rewrite eqb_byteZ. change (byteZ esc) with 27.
    destruct (byteZ a <? runeSelf) eqn:E.
    + specialize (IH 0%nat). simpl.
      destruct (Z.eq_dec (byteZ a) 27) as [e|ne];
        destruct (Z.eqb_spec (byteZ a) 27); try contradiction; lia.
    + destruct (decoderune (String a rest)) as [r w] eqn:D.
      specialize (IH (Nat.pred w)). simpl.
      destruct (Z.eq_dec r 27) as [e|ne]; [|lia].
      exfalso. subst r.
      destruct (decoderune_cases _ _ _ D) as [[H _]|(H & _)];
        [discriminate H | lia].
  - specialize (IH k). simpl. lia.
Qed.

Lemma parseLoop_run_count (rs : list rune) :
  forall st p,
    (List.length (p_ts (fst (parseLoop rs st p)))
     <= List.length (p_ts p) + count_occ Z.eq_dec rs 27%Z)%nat.
Proof.
  induction rs as [|c rest IH]; intros st p; simpl; [lia|].
  assert (H : (List.length (p_ts (fst (callState st c p)))
               <= List.length (p_ts p) + (if Z.eq_dec c 27 then 1 else 0))%nat).
  { destruct st; simpl.
    - unfold parsePlain. destruct (Z.eqb_spec c 27) as [e|ne].
      + destruct (Z.eq_dec c 27); [|contradiction].
        destruct (0 <? String.length (p_b p))%nat; simpl; [|lia].
        rewrite List.length_app. simpl. lia.
      + simpl. lia.
    - unfold parseESC. destruct (c =? 91); simpl; lia.
    - rewrite (proj1 (parseCSI_frame c p)). lia. }
  destruct (callState st c p) as [p1 [next|e]]; simpl in *.
  - specialize (IH next (set_state p1 (Some next))). simpl in IH.
    destruct (Z.eq_dec c 27); lia.
  - destruct (Z.eq_dec c 27); lia.
Qed.

(** X21.  [parse] returns at most one run more than the input has escape
    bytes. *)
Theorem run_count (input : string) :
  (List.length (fst (parse input)) <= 1 + countByte esc input)%nat.
Proof.
  destruct input as [|a s]; [simpl; lia|].
  rewrite parse_parser_parse by discriminate. unfold parser_parse.
  pose proof (parseLoop_run_count (runes (String a s)) statePlain
                (set_state (set_ts zeroParser []) (Some statePlain))) as H.
  pose proof (range_from_escapes (String a s) 0) as G. fold (runes (String a s)) in G.
  destruct (parseLoop (runes (String a s)) statePlain
              (set_state (set_ts zeroParser []) (Some statePlain))) as [p [e|]];
    simpl in *; [lia|].
  rewrite List.length_app. simpl. lia.
Qed.

(** ** The parameter buffer *)

(** Outside the parameters of an escape sequence the parameter buffer is
    empty. *)
Lemma parseLoop_params (rs : list rune) :
  forall st p p', (st <> stateCSI -> p_c p = EmptyString) ->
    parseLoop rs st p = (p', None) ->
    stateAfter rs st p <> stateCSI -> p_c p' = EmptyString.
Proof.
  induction rs as [|c rest IH]; intros st p p' Hc H Hst; simpl in *.
  - injection H as <-. apply Hc. exact Hst.
  - destruct (callState st c p) as [p1 [next|e]] eqn:E; [|discriminate H].
    apply (IH next (set_state p1 (Some next)) p'); [|exact H | exact Hst].
    intros Hn. simpl. destruct st; simpl in E.
    + unfold parsePlain in E. destruct (c =? 27).
      * injection E as <- <-. rewrite <- (Hc ltac:(discriminate)).
        destruct (0 <? String.length (p_b p))%nat; reflexivity.
      * injection E as <- <-. simpl. apply Hc. discriminate.
    + unfold parseESC in E. destruct (c =? 91); [|discriminate E].
      injection E as <- <-. contradiction.
    + unfold parseCSI in E. destruct (c =? 109).
      * destruct (atoiAll (Split (p_c p))) as [codes|e]; [|discriminate E].
        destruct (sgrLoop codes (set_c p EmptyString)) as [p3 [e|]] eqn:G;
          [discriminate E|].
        injection E as <- <-.
        destruct (sgrLoop_frame _ _ _ _ _ (Nat.le_refl _) G) as (_ & _ & _ & Ec).
        rewrite Ec. reflexivity.
      * injection E as <- <-. contradiction.
Qed.

(** X22.  The sequence [ESC '[' 'm'] with no parameter is rejected wherever it
    stands in plain text: [strconv.Atoi] fails on the empty text.  The runs
    read before it are returned with the error. *)
Theorem bare_reset_rejected (s1 rest : string) (q : parser)
    (Hrun : parseLoop (runes s1) statePlain startParser = (q, None))
    (Hplain : p_state q = Some statePlain) :
  parse (s1 ++ String esc ("[m" ++ rest))
  = (flushed q, Some (NumError EmptyString ErrSyntax)).
Proof.
  assert (Hst : stateAfter (runes s1) statePlain startParser = statePlain).
  { pose proof (parseLoop_state _ _ _ _ startParser_state Hrun) as H.
    rewrite Hplain in H. injection H as <-. reflexivity. }
  assert (Hc : p_c q = EmptyString).
  { apply (parseLoop_params (runes s1) statePlain startParser q (fun _ => eq_refl) Hrun).
    rewrite Hst. discriminate. }
  rewrite parse_parser_parse by (destruct s1; discriminate). unfold parser_parse.
  change (set_state (set_ts zeroParser []) (Some statePlain)) with startParser.
  rewrite runes_app_ascii by reflexivity.
  rewrite (parseLoop_app _ _ _ _ _ Hrun), Hst.
  change (String esc ("[m" ++ rest)) with (String esc (String "[" (String "m" rest))).
  rewrite !runes_ascii by reflexivity.
  change (byteZ esc) with 27. change (byteZ "[") with 91. change (byteZ "m") with 109.
  destruct q as [st ts b c bg fg bold]. simpl in Hc. subst c.
  unfold flushed. cbn [parseLoop callState]. unfold parsePlain. cbn [Z.eqb Pos.eqb p_b].
  destruct (0 <? String.length b)%nat; reflexivity.
Qed.

Lemma bare_reset_rejected_witness :
  parse ("foo" ++ String esc ("[m" ++ "bar"))
  = ([plainRun "foo"], Some (NumError EmptyString ErrSyntax)).
Proof.
  apply (bare_reset_rejected "foo" "bar"
           (set_b startParser "foo")); reflexivity.
Defined.

(** ** Input without escape bytes *)

Lemma range_from_no_escape (s : string) :
  noEsc s = true -> forall k, ~ In 27 (range_from k s).
Proof.
  induction s as [|a rest IH]; intros H k; [intros []|].
  simpl in H. apply andb_true_iff in H. destruct H as [Ha Hr].
  rewrite eqb_byteZ in Ha. change (byteZ esc) with 27 in Ha.
  apply negb_true_iff, Z.eqb_neq in Ha.
  destruct k as [|k]; [|apply IH; exact Hr].
  rewrite range_from_cons. destruct (byteZ a <? runeSelf).
  - intros [E|E]; [contradiction | exact (IH Hr _ E)].
  - destruct (decoderune (String a rest)) as [r w] eqn:D.
    intros [E|E]; [|exact (IH Hr _ E)]. subst r.
    destruct (decoderune_cases _ _ _ D) as [[H _]|(H & _)]; [discriminate H | lia].
Qed.

Lemma parseLoop_plain (rs : list rune) :
  forall p, p_state p = Some statePlain -> ~ In 27 rs ->
    parseLoop rs statePlain p
    = (set_b p (p_b p ++ concatAll (map appendRune rs)), None).
Proof.
  induction rs as [|c rest IH]; intros p Hst Hno.
  - simpl. rewrite append_empty_r. destruct p. reflexivity.
  - cbn [parseLoop callState]. unfold parsePlain.
    destruct (Z.eqb_spec c 27) as [E|E]; [exfalso; apply Hno; left; auto|].
    rewrite IH; [| reflexivity | intros H; apply Hno; right; exact H].
    destruct p as [st ts b c0 bg fg bold]. simpl in Hst. subst st.
    unfold set_b, set_state, WriteRune. simpl. rewrite append_assoc. reflexivity.
Qed.

(** X23.  An input with no escape byte never fails and gives one run in the
    default style: the runes of the input written back, which for bytes that
    are no UTF-8 is the replacement character. *)
Theorem escape_free_input (input : string)
    (Hplain : noEsc input = true) (Hne : input <> EmptyString) :
  parse input = ([plainRun (concatAll (map appendRune (runes input)))], None).
Proof.
  rewrite parse_parser_parse by exact Hne. unfold parser_parse.
  change (set_state (set_ts zeroParser []) (Some statePlain)) with startParser.
  rewrite (parseLoop_plain (runes input) startParser eq_refl
             (range_from_no_escape input Hplain 0%nat)).
  reflexivity.
Qed.

Lemma escape_free_input_witness :
  parse (invalidByte ++ "a") = ([plainRun (replacement ++ "a")], None).
Proof.
  apply (escape_free_input (invalidByte ++ "a")); [reflexivity | discriminate].
Defined.

Lemma plainText_all (P : string -> Prop) (ts : list text) :
  P EmptyString -> (forall s1 s2, P s1 -> P s2 -> P (s1 ++ s2)%string) ->
  Forall (fun t => P (text_text t)) ts -> P (plainText ts).
Proof.
  intros P0 Papp. induction ts as [|t ts IH]; intros H; simpl; [exact P0|].
  inversion H; subst. apply Papp; [assumption | apply IH; assumption].
Qed.

(** X24.  The plain text of a result parses to itself: it holds no escape
    byte and is well-formed, so a second pass changes nothing and cannot
    fail. *)
Theorem plain_text_idempotent (input : string) :
  let s := plainText (fst (parse input)) in
  plainText (fst (parse s)) = s /\ snd (parse s) = None.
Proof.
  intros s.
  assert (Hv : validUTF8 s = true).
  { apply (plainText_all (fun x => validUTF8 x = true));
      [reflexivity | exact validUTF8_app |].
    apply (parse_text (fun x => validUTF8 x = true));
      [reflexivity | exact WriteRune_valid]. }
  assert (He : noEsc s = true).
  { apply (plainText_all (fun x => noEsc x = true)); [reflexivity | |].
    - intros s1 s2 H1 H2. rewrite noEsc_app, H1, H2. reflexivity.
    - apply (parse_text (fun x => noEsc x = true));
        [reflexivity | exact WriteRune_noEsc]. }
  destruct s as [|a s'] eqn:Es; [split; reflexivity|].
  rewrite parse_parser_parse by discriminate. unfold parser_parse.
  change (set_state (set_ts zeroParser []) (Some statePlain)) with startParser.
  rewrite (parseLoop_plain (runes (String a s')) startParser eq_refl
             (range_from_no_escape (String a s') He 0%nat)).
  rewrite (reencode_valid_n _ _ (Nat.le_refl _) Hv). simpl.
  rewrite append_empty_r. split; reflexivity.
Qed.

(** ** A whole escape sequence *)

(** The SGR loop reads and writes the style only: two states with the same
    style give the same style and the same error. *)
Lemma sgrLoop_style (n : nat) :
  forall codes p p0, (List.length codes <= n)%nat -> styleOf p = styleOf p0 ->
    styleOf (fst (sgrLoop codes p)) = styleOf (fst (sgrLoop codes p0)) /\
    snd (sgrLoop codes p) = snd (sgrLoop codes p0).
Proof.
  induction n as [|n IH]; intros codes p p0 Hlen Hs.
  - destruct codes; [split; [exact Hs | reflexivity] | simpl in Hlen; lia].
  - destruct codes as [|c rest]; [split; [exact Hs | reflexivity]|].
    simpl in Hlen. cbn [sgrLoop].
    assert (Hs' := Hs). unfold styleOf in Hs'. injection Hs' as Ebg Efg Ebold.
    repeat match goal with
    | |- context [if ?b then _ else _] => destruct b
    | |- context [match ?l with [] => _ | _ :: _ => _ end] => destruct l; simpl in Hlen
    | |- styleOf (fst (_, Some _)) = _ /\ _ => split; [exact Hs | reflexivity]
    | |- styleOf (fst (sgrLoop ?l _)) = _ /\ _ =>
        apply IH; [simpl in *; lia | unfold styleOf; simpl; congruence]
    end.
Qed.

Lemma range_from_no_byte (b : ascii) (s : string) :
  byteZ b < 128 -> occurs b s = false -> forall k, ~ In (byteZ b) (range_from k s).
Proof.
  intros Hb. induction s as [|a rest IH]; intros H k; [intros []|].
  simpl in H. apply orb_false_iff in H. destruct H as [Ha Hr].
  rewrite eqb_byteZ in Ha. apply Z.eqb_neq in Ha.
  destruct k as [|k]; [|apply IH; exact Hr].
  rewrite range_from_cons. destruct (byteZ a <? runeSelf).
  - intros [E|E]; [contradiction | exact (IH Hr _ E)].
  - destruct (decoderune (String a rest)) as [r w] eqn:D.
    intros [E|E]; [|exact (IH Hr _ E)]. subst r.
    destruct (decoderune_cases _ _ _ D) as [[H _]|(H & _)];
      [unfold runeError in H; lia | lia].
Qed.

Lemma parseLoop_csi (rs : list rune) :
  forall p, p_state p = Some stateCSI -> ~ In 109 rs ->
    parseLoop rs stateCSI p
    = (set_c p (p_c p ++ concatAll (map appendRune rs)), None).
Proof.
  induction rs as [|c rest IH]; intros p Hst Hno.
  - simpl. rewrite append_empty_r. destruct p. reflexivity.
  - cbn [parseLoop callState]. unfold parseCSI.
    destruct (Z.eqb_spec c 109) as [E|E]; [exfalso; apply Hno; left; auto|].
    rewrite IH; [| reflexivity | intros H; apply Hno; right; exact H].
    destruct p as [st ts b c0 bg fg bold]. simpl in Hst. subst st.
    unfold set_c, set_state, WriteRune. simpl. rewrite append_assoc. reflexivity.
Qed.

(** X25.  One escape sequence and the text behind it.  When the parameters
    are well-formed UTF-8 without ['m'], convert to [codes] and the SGR loop
    accepts them, the input [ESC '[' params 'm' text] with no further escape
    byte gives one run: the text as [range] and [WriteRune] pass it on, in
    the style the loop computes from the default style. *)
Theorem sgr_then_text (params text : string) (codes : list Z)
    (Hvalid : validUTF8 params = true) (Hm : occurs "m" params = false)
    (Hcodes : atoiAll (Split params) = inl codes)
    (Hsgr : snd (sgrLoop codes startParser) = None)
    (Hplain : noEsc text = true) :
  parse (String esc (String "[" (params ++ String "m" text)))
  = ([ {| text_text := concatAll (map appendRune (runes text));
          text_bg := p_bg (fst (sgrLoop codes startParser));
          text_fg := p_fg (fst (sgrLoop codes startParser));
          text_bold := p_bold (fst (sgrLoop codes startParser)) |} ], None).
Proof.
  assert (Hr : runes (String esc (String "[" (params ++ String "m" text)))
               = ([27; 91] ++ runes params ++ [109] ++ runes text)%list).
  { rewrite !runes_ascii by reflexivity. unfold runes at 1.
    rewrite range_from_app_ascii by (reflexivity || lia).
    fold (runes params). fold (runes (String "m" text)).
    rewrite runes_ascii by reflexivity. reflexivity. }
  assert (Hno : ~ In 109 (runes params))
    by exact (range_from_no_byte "m" params ltac:(reflexivity) Hm 0%nat).
  set (p1 := set_state (set_state startParser (Some stateESC)) (Some stateCSI)).
  assert (Hloop : exists p,
             parseLoop ([27; 91] ++ runes params ++ [109] ++ runes text)%list
               statePlain startParser = (p, None) /\
             p_ts p = [] /\
             p_b p = concatAll (map appendRune (runes text)) /\
             styleOf p = styleOf (fst (sgrLoop codes startParser))).
  { rewrite (parseLoop_app [27; 91] _ statePlain startParser p1 eq_refl).
    change (stateAfter [27; 91] statePlain startParser) with stateCSI.
    rewrite (parseLoop_app (runes params) _ stateCSI p1 _ (parseLoop_csi _ p1 eq_refl Hno)).
    assert (Hst : stateAfter (runes params) stateCSI p1 = stateCSI).
    { pose proof (parseLoop_state _ _ _ _ (eq_refl : p_state p1 = Some stateCSI)
                    (parseLoop_csi _ p1 eq_refl Hno)) as H.
      simpl in H. injection H as <-. reflexivity. }
    rewrite Hst. cbn [List.app parseLoop callState]. unfold parseCSI.
    cbn [Z.eqb Pos.eqb].
    change (p_c (set_c p1 (p_c p1 ++ concatAll (map appendRune (runes params)))))
      with (concatAll (map appendRune (runes params))).
    rewrite (reencode_valid_n _ _ (Nat.le_refl _) Hvalid), Hcodes.
    set (p2 := set_c (set_c p1 _) EmptyString).
    destruct (sgrLoop_style _ codes p2 startParser (Nat.le_refl _) eq_refl) as [Es Ee].
    rewrite Hsgr in Ee.
    destruct (sgrLoop codes p2) as [p3 r] eqn:E3. simpl in Ee, Es. subst r.
    destruct (sgrLoop_frame _ _ _ _ _ (Nat.le_refl _) E3) as (_ & Ets & Eb & _).
    rewrite (parseLoop_plain (runes text) (set_state p3 (Some statePlain)) eq_refl
               (range_from_no_escape text Hplain 0%nat)).
    eexists. split; [reflexivity|]. simpl. rewrite Ets, Eb.
    split; [reflexivity|]. split; [reflexivity | exact Es]. }
  destruct Hloop as (p & Hp & Hts & Hb & Hs).
  rewrite parse_parser_parse by discriminate. unfold parser_parse.
  change (set_state (set_ts zeroParser []) (Some statePlain)) with startParser.
  rewrite Hr, Hp. unfold styleOf in Hs. injection Hs as <- <- <-.
  unfold append. simpl. rewrite Hts, Hb. reflexivity.
Qed.

Lemma sgr_then_text_witness :
  parse (String esc (String "[" ("1;38;5;196" ++ String "m" "hi")))
  = ([mkText "hi" EmptyString "#ff0000" true], None).
Proof.
  apply (sgr_then_text "1;38;5;196" "hi" [1; 38; 5; 196]); reflexivity.
Defined.

Lemma setAt_length (xs : list directory) :
  forall i v, List.length (setAt xs i v) = List.length xs.
Proof.
  induction xs as [|x xs IH]; intros i v; [reflexivity|].
  destruct i; simpl; [reflexivity | rewrite IH; reflexivity].
Qed.

Lemma setAt_nth (xs : list directory) :
  forall i v j, (i < List.length xs)%nat ->
    nth_error (setAt xs i v) j = if (j =? i)%nat then Some v else nth_error xs j.
Proof.
  induction xs as [|x xs IH]; intros i v j Hi; [simpl in Hi; lia|].
  destruct i as [|i]; destruct j as [|j]; simpl; try reflexivity.
  apply IH. simpl in Hi. lia.
Qed.

Lemma swap_length (xs : list directory) (i j : nat) :
  List.length (swap xs i j) = List.length xs.
Proof.
  unfold swap. destruct (nth_error xs j), (nth_error xs i); try reflexivity.
  rewrite !setAt_length. reflexivity.
Qed.

Lemma swap_nth (xs : list directory) (i opp j : nat) :
  (i < List.length xs)%nat -> (opp < List.length xs)%nat ->
  nth_error (swap xs i opp) j
  = if (j =? opp)%nat then nth_error xs i
    else if (j =? i)%nat then nth_error xs opp
    else nth_error xs j.
Proof.
  intros Hi Ho. unfold swap.
  destruct (nth_error xs opp) as [a|] eqn:Ea;
    [|apply nth_error_None in Ea; lia].
  destruct (nth_error xs i) as [b|] eqn:Eb;
    [|apply nth_error_None in Eb; lia].
  rewrite setAt_nth by (rewrite setAt_length; exact Ho).
  destruct (j =? opp)%nat; [reflexivity|].
  rewrite setAt_nth by exact Hi. reflexivity.
Qed.

Lemma reverseLoop_length (k : nat) :
  forall xs, List.length (reverseLoop k xs) = List.length xs.
Proof.
  induction k as [|k IH]; intros xs; simpl; [reflexivity|].
  rewrite IH, swap_length. reflexivity.
Qed.

(** The loop with [k] turns left has exchanged the first [k] and the last
    [k] elements. *)
Lemma reverseLoop_nth (k : nat) :
  forall xs j, (2 * k <= List.length xs)%nat -> (j < List.length xs)%nat ->
    nth_error (reverseLoop k xs) j
    = if ((j <? k) || (List.length xs - 1 - j <? k))%nat
      then nth_error xs (List.length xs - 1 - j)
      else nth_error xs j.
Proof.
  induction k as [|k IH]; intros xs j Hk Hj.
  - cbn [reverseLoop].
    destruct (Nat.ltb_spec j 0); [lia|].
    destruct (Nat.ltb_spec (List.length xs - 1 - j) 0); [lia|]. reflexivity.
  - cbn [reverseLoop]. rewrite IH by (rewrite swap_length; lia).
    rewrite swap_length, !swap_nth by lia.
    repeat match goal with
    | |- context [(?a <? ?b)%nat] => destruct (Nat.ltb_spec a b)
    | |- context [(?a =? ?b)%nat] => destruct (Nat.eqb_spec a b)
    end; cbn [orb]; try reflexivity; try lia;
    try (f_equal; lia).
Qed.

Lemma reverseLoop_rev (xs : list directory) : reverse xs = rev xs.
Proof.
  apply nth_error_ext. intros j. unfold reverse.
  destruct (Nat.lt_ge_cases j (List.length xs)) as [Hj|Hj].
  - assert (Hk : (2 * (List.length xs / 2) <= List.length xs)%nat).
    { pose proof (Nat.div_mod_eq (List.length xs) 2). lia. }
    rewrite reverseLoop_nth by assumption.
    rewrite nth_error_rev. destruct (Nat.ltb_spec j (List.length xs)) as [_|G]; [|lia].
    assert (E : ((j <? List.length xs / 2)
                 || (List.length xs - 1 - j <? List.length xs / 2))%nat = false
                -> (List.length xs - 1 - j = j)%nat).
    { intros H. apply orb_false_iff in H. destruct H as [H1 H2].
      apply Nat.ltb_ge in H1, H2.
      pose proof (Nat.div_mod_eq (List.length xs) 2).
      pose proof (Nat.mod_upper_bound (List.length xs) 2). lia. }
    destruct ((j <? List.length xs / 2)
              || (List.length xs - 1 - j <? List.length xs / 2))%nat.
    + f_equal. lia.
    + rewrite <- (E eq_refl) at 1. f_equal. lia.
  - rewrite (proj2 (nth_error_None _ _)) by (rewrite reverseLoop_length; exact Hj).
    rewrite (proj2 (nth_error_None _ _)) by (rewrite length_rev; exact Hj).
    reflexivity.
Qed.

(** X26.  The swap loop of [breadcrumbs] reverses the slice, for an even
    and for an odd number of elements, and reads or writes no index out of
    range. *)
Theorem reverse_rev (xs : list directory) :
  reverse xs = rev xs /\
  forall k, (k < List.length xs / 2)%nat ->
    (k < List.length xs)%nat /\ (List.length xs - 1 - k < List.length xs)%nat.
Proof.
  split; [apply reverseLoop_rev|]. intros k Hk.
  pose proof (Nat.div_mod_eq (List.length xs) 2). lia.
Qed.

(** ** The breadcrumbs of a path *)

Section BreadcrumbsChain.
Variable Base : string -> string.
Variable Dir : string -> string.
Hypothesis Dir_shorter :
  forall q, (1 < String.length q)%nat -> (String.length (Dir q) < String.length q)%nat.

Lemma crumbLoop_ancestors (fuel : nat) :
  forall p xs, (String.length p <= fuel + 1)%nat ->
    exists ys, crumbLoop Base Dir fuel p xs = Some (xs ++ ys)%list /\
               ancestors Base Dir p ys.
Proof.
  induction fuel as [|f IH]; intros p xs Hlen; cbn [crumbLoop].
  - destruct (Nat.ltb_spec 1 (String.length p)) as [L|L]; [lia|].
    exists []. rewrite app_nil_r. split; [reflexivity | constructor; exact L].
  - destruct (Nat.ltb_spec 1 (String.length p)) as [L|L].
    + pose proof (Dir_shorter p L) as S.
      destruct (IH (Dir p) (xs ++ [ {| Path := p; Name := Base p |} ])%list ltac:(lia))
        as (ys & E & A).
      exists ({| Path := p; Name := Base p |} :: ys). rewrite E, <- app_assoc.
      split; [reflexivity | constructor; assumption].
    + exists []. rewrite app_nil_r. split; [reflexivity | constructor; exact L].
Qed.
End BreadcrumbsChain.

Lemma ancestors_all (Base Dir : string -> string) (p : string) (ys : list directory) :
  ancestors Base Dir p ys ->
  Forall (fun d => Name d = Base (Path d) /\ (1 < String.length (Path d))%nat) ys.
Proof.
  intros H. induction H; constructor; [split; [reflexivity | assumption] | assumption].
Qed.

Lemma ancestors_adjacent (Base Dir : string -> string) (p : string) (ys : list directory) :
  ancestors Base Dir p ys ->
  forall A d2 d1 B, ys = (A ++ d2 :: d1 :: B)%list -> Path d1 = Dir (Path d2).
Proof.
  intros H. induction H as [p L | p ys L H IH]; intros A d2 d1 B E.
  - destruct A; discriminate E.
  - destruct A as [|a A]; simpl in E.
    + injection E as <- ->. inversion H; subst. reflexivity.
    + injection E as _ ->. apply (IH A d2 d1 B). reflexivity.
Qed.

Lemma ancestors_last (Base Dir : string -> string) (p : string) (ys : list directory) :
  ancestors Base Dir p ys ->
  forall A d, ys = (A ++ [d])%list -> (String.length (Dir (Path d)) <= 1)%nat.
Proof.
  intros H. induction H as [p L | p ys L H IH]; intros A d E.
  - destruct A; discriminate E.
  - destruct A as [|a A]; simpl in E.
    + injection E as <- ->. inversion H; subst. simpl. assumption.
    + injection E as _ ->. apply (IH A d). reflexivity.
Qed.

(** X27.  The breadcrumbs of a path, for a [path.Dir] that makes every path of
    more than one byte shorter: the loop ends, and the result lists the
    ancestors from the outermost to the path itself, each the [Dir] of the
    next, each named by its [Base]. *)
Theorem breadcrumbs_root_first (Base Dir : string -> string) (p : string)
    (Dir_shorter : forall q, (1 < String.length q)%nat ->
                             (String.length (Dir q) < String.length q)%nat) :
  exists xs,
    breadcrumbs Base Dir (String.length p) p = Some xs /\
    ((String.length p <= 1)%nat -> xs = []) /\
    ((1 < String.length p)%nat ->
     exists ys, xs = (ys ++ [ {| Path := p; Name := Base p |} ])%list) /\
    (forall ys d1 d2 zs, xs = (ys ++ d1 :: d2 :: zs)%list -> Path d1 = Dir (Path d2)) /\
    (forall d rest, xs = d :: rest -> (String.length (Dir (Path d)) <= 1)%nat) /\
    Forall (fun d => Name d = Base (Path d) /\ (1 < String.length (Path d))%nat) xs.
Proof.
  destruct (crumbLoop_ancestors Base Dir Dir_shorter (String.length p) p [] ltac:(lia))
    as (ys & E & A).
  exists (rev ys). unfold breadcrumbs. rewrite E, reverseLoop_rev. simpl.
  split; [reflexivity|]. split; [|split; [|split; [|split]]].
  - intros L. inversion A; subst; [reflexivity | lia].
  - intros L. inversion A; subst; [lia|]. simpl. eexists. reflexivity.
  - intros l d1 d2 r Er.
    apply (ancestors_adjacent Base Dir p ys A (rev r) d2 d1 (rev l)).
    rewrite <- (rev_involutive ys), Er, rev_app_distr. simpl.
    rewrite <- !app_assoc. reflexivity.
  - intros d rest Er.
    apply (ancestors_last Base Dir p ys A (rev rest) d).
    rewrite <- (rev_involutive ys), Er. reflexivity.
  - apply Forall_rev. exact (ancestors_all Base Dir p ys A).
Qed.

Lemma beforeLastSlash_shorter (s d : string) :
  beforeLastSlash s = Some d -> (String.length d < String.length s)%nat.
Proof.
  revert d. induction s as [|a rest IH]; intros d H; simpl in H; [discriminate H|].
  destruct (beforeLastSlash rest) as [d'|].
  - injection H as <-. specialize (IH d' eq_refl). simpl. lia.
  - destruct (Ascii.eqb a "/"); [|discriminate H]. injection H as <-. simpl. lia.
Qed.

Lemma parentOf_shorter (q : string) :
  (1 < String.length q)%nat -> (String.length (parentOf q) < String.length q)%nat.
Proof.
  intros L. unfold parentOf. destruct (beforeLastSlash q) as [d|] eqn:E; [|simpl; lia].
  apply beforeLastSlash_shorter in E. destruct d; simpl in *; lia.
Qed.

Lemma breadcrumbs_root_first_witness :
  breadcrumbs afterLastSlash parentOf 11 "/logs/a.log"
  = Some [ {| Path := "/logs"; Name := "logs" |};
           {| Path := "/logs/a.log"; Name := "a.log" |} ] /\
  exists xs,
    breadcrumbs afterLastSlash parentOf (String.length "/logs/a.log") "/logs/a.log"
    = Some xs /\
    ((String.length "/logs/a.log" <= 1)%nat -> xs = []) /\
    ((1 < String.length "/logs/a.log")%nat ->
     exists ys, xs = (ys ++ [ {| Path := "/logs/a.log";
                                 Name := afterLastSlash "/logs/a.log" |} ])%list) /\
    (forall ys d1 d2 zs, xs = (ys ++ d1 :: d2 :: zs)%list -> Path d1 = parentOf (Path d2)) /\
    (forall d rest, xs = d :: rest -> (String.length (parentOf (Path d)) <= 1)%nat) /\
    Forall (fun d => Name d = afterLastSlash (Path d) /\
                     (1 < String.length (Path d))%nat) xs.
Proof.
  split; [reflexivity|].
  exact (breadcrumbs_root_first afterLastSlash parentOf "/logs/a.log" parentOf_shorter).
Defined.
